(** * Survey analysis of [server.js]: model of [analyzeSurveyData] and its properties

    The only decision logic of the repository is the function
    [analyzeSurveyData] (server.js, lines 82-168); the rest of the file is
    HTTP routing, upload handling and file parsing.  The function is embedded
    here as a pure function over JavaScript values.  The ECMAScript built-ins
    it calls ([parseFloat], [isNaN], [isFinite], [String], [trim],
    [Math.min], [Math.max], [Array.prototype.sort], Number arithmetic) are
    modelled after ECMA-262:

    - a Number is an IEEE 754 binary64 value, represented by [spec_float]
      with the operations of [SpecFloat] at precision 53 and [emax] 1024;
      decimal literals are rounded to nearest, ties to even;
    - a String is a [string] whose characters stand for code units below
      U+0100, so the white space characters are TAB, LF, VT, FF, CR, SP and
      NBSP;
    - an object used as a record (a row) is the list of its own properties in
      [Object.keys] order, and reading a missing property gives [undefined];
      an object used as a dictionary (the result maps) is a [gmap];
    - [sort] with a comparison function is the stable insertion sort.

    The file has three parts: the built-ins ([Num], [Str], [JS]), the
    analysis ([Survey]) with the vocabulary of its specification ([Spec]),
    and the properties. *)

From Stdlib Require Import ZArith List String Ascii Bool Lia SpecFloat.
From Stdlib Require Import Permutation Sorted QArith.
From stdpp Require Import base gmap strings list.

Local Open Scope Z_scope.

(** ** Numbers *)

Module Num.

Definition number := spec_float.

Definition prec : Z := 53.
Definition emax : Z := 1024.

Definition NaN : number := S754_nan.
Definition Infinity : number := S754_infinity false.
Definition pos_zero : number := S754_zero false.
Definition neg_zero : number := S754_zero true.

Definition add : number -> number -> number := SFadd prec emax.
Definition sub : number -> number -> number := SFsub prec emax.
Definition div : number -> number -> number := SFdiv prec emax.
Definition ltb : number -> number -> bool := SFltb.
Definition leb : number -> number -> bool := SFleb.

(** The Number value of an integer (exact below 2^53). *)
Definition of_Z (z : Z) : number := binary_normalize prec emax z 0 false.
Definition of_nat (n : nat) : number := of_Z (Z.of_nat n).

(** The Number value of the decimal [(-1)^neg * m * 10^e], rounded to
    nearest, ties to even. *)
Definition of_decimal (neg : bool) (m : Z) (e : Z) : number :=
  match m with
  | Zpos p =>
      if 0 <=? e
      then binary_normalize prec emax (cond_Zopp neg (Zpos p * 10 ^ e)) 0 false
      else
        let '(q, e', l) := SFdiv_core_binary prec emax (Zpos p) 0 (10 ^ (- e)) 0 in
        binary_round_aux prec emax neg q e' l
  | _ => S754_zero neg
  end.

Definition is_nan (x : number) : bool :=
  match x with S754_nan => true | _ => false end.

Definition is_finite (x : number) : bool :=
  match x with S754_nan | S754_infinity _ => false | _ => true end.

Definition is_zero (x : number) : bool :=
  match x with S754_zero _ => true | _ => false end.

(** [x] is the Number [y] (same value, signed zeros told apart). *)
Definition number_is (y x : number) : bool :=
  match x, y with
  | S754_zero a, S754_zero b => Bool.eqb a b
  | S754_infinity a, S754_infinity b => Bool.eqb a b
  | S754_nan, S754_nan => true
  | S754_finite a m e, S754_finite b m' e' =>
      Bool.eqb a b && Pos.eqb m m' && Z.eqb e e'
  | _, _ => false
  end.

(** [x > 0] *)
Definition is_positive (x : number) : bool := ltb pos_zero x.

(** The shapes a rounded result can take: everything but NaN, with the
    sign asked for. *)
Definition signed (s : bool) (x : number) : Prop :=
  match x with
  | S754_zero s' | S754_infinity s' | S754_finite s' _ _ => s' = s
  | S754_nan => False
  end.

(** The state after a right shift to the format's exponent: the mantissa
    vanished at the least exponent, or it is canonical. *)
Definition aligned (m e : Z) : Prop :=
  (m = 0 /\ e = emin prec emax)
  \/ (0 < m /\ fexp prec emax (Zdigits2 m + e) = e).

(** A [spec_float] denotes a binary64 value when its mantissa is canonical. *)
Definition valid (x : number) : bool := valid_binary prec emax x.

End Num.

(** ** Strings: white space, numeric literals, Number::toString *)

Module Str.

Import Num.

Definition code (c : ascii) : nat := nat_of_ascii c.

(** StrWhiteSpaceChar (WhiteSpace and LineTerminator) below U+0100:
    TAB, LF, VT, FF, CR, SP and NBSP. *)
Definition is_whitespace (c : ascii) : bool :=
  let n := code c in
  ((9 <=? n)%nat && (n <=? 13)%nat) || (n =? 32)%nat || (n =? 160)%nat.

Definition is_digit (c : ascii) : bool :=
  let n := code c in (48 <=? n)%nat && (n <=? 57)%nat.

Definition digit_value (c : ascii) : Z := Z.of_nat (code c) - 48.

Fixpoint trim_start (l : list ascii) : list ascii :=
  match l with
  | c :: l' => if is_whitespace c then trim_start l' else l
  | [] => []
  end.

Definition trim_end (l : list ascii) : list ascii := rev (trim_start (rev l)).

(** [String.prototype.trim] *)
Definition trim (s : string) : string :=
  string_of_list_ascii (trim_end (trim_start (list_ascii_of_string s))).

(** Leading decimal digits and what follows them. *)
Fixpoint span_digits (l : list ascii) : list ascii * list ascii :=
  match l with
  | c :: l' =>
      if is_digit c
      then let '(ds, rest) := span_digits l' in (c :: ds, rest)
      else ([], l)
  | [] => ([], [])
  end.

(** MV of DecimalDigits *)
Definition digits_value (ds : list ascii) : Z :=
  fold_left (fun acc c => 10 * acc + digit_value c) ds 0.

Fixpoint strip_prefix (p l : list ascii) : option (list ascii) :=
  match p, l with
  | [], _ => Some l
  | a :: p', b :: l' => if Ascii.eqb a b then strip_prefix p' l' else None
  | _ :: _, [] => None
  end.

(** An optional sign: [true] for "-". *)
Definition parse_sign (l : list ascii) : bool * list ascii :=
  match l with
  | c :: l' =>
      if Ascii.eqb c "+" then (false, l')
      else if Ascii.eqb c "-" then (true, l')
      else (false, l)
  | [] => (false, [])
  end.

(** ExponentPart_opt: the exponent and the rest; when no well-formed
    exponent part follows, the exponent is 0 and nothing is consumed. *)
Definition parse_exponent (l : list ascii) : Z * list ascii :=
  match l with
  | c :: l' =>
      if Ascii.eqb c "e" || Ascii.eqb c "E"
      then
        let '(neg, l'') := parse_sign l' in
        match span_digits l'' with
        | ([], _) => (0, l)
        | (ds, rest) => (cond_Zopp neg (digits_value ds), rest)
        end
      else (0, l)
  | [] => (0, l)
  end.

Definition is_nil {A : Type} (l : list A) : bool :=
  match l with [] => true | _ :: _ => false end.

(** The longest prefix that is a StrUnsignedDecimalLiteral:
    [None] is Infinity, [Some (m, e)] is the decimal [m * 10^e].  The
    literal is "Infinity", or digits with an optional fraction, or a
    fraction of at least one digit, and then an optional exponent. *)
Definition parse_StrUnsignedDecimalLiteral (l : list ascii)
  : option (option (Z * Z) * list ascii) :=
  match strip_prefix (list_ascii_of_string "Infinity") l with
  | Some rest => Some (None, rest)
  | None =>
      let '(int_ds, r1) := span_digits l in
      match strip_prefix (list_ascii_of_string ".") r1 with
      | Some r2 =>
          let '(frac_ds, r3) := span_digits r2 in
          if is_nil int_ds && is_nil frac_ds then None
          else
            let '(ex, r4) := parse_exponent r3 in
            Some (Some (digits_value (int_ds ++ frac_ds),
                        ex - Z.of_nat (length frac_ds)), r4)
      | None =>
          if is_nil int_ds then None
          else
            let '(ex, r4) := parse_exponent r1 in
            Some (Some (digits_value int_ds, ex), r4)
      end
  end.

(** The longest prefix that is a StrDecimalLiteral, with its
    StringNumericValue. *)
Definition parse_StrDecimalLiteral (l : list ascii) : option (number * list ascii) :=
  let '(neg, l') := parse_sign l in
  match parse_StrUnsignedDecimalLiteral l' with
  | Some (None, rest) => Some (S754_infinity neg, rest)
  | Some (Some (m, e), rest) => Some (of_decimal neg m e, rest)
  | None => None
  end.

(** [parseFloat] on a String: leading white space is dropped, the longest
    StrDecimalLiteral prefix is converted, anything after it is ignored. *)
Definition parseFloat (s : string) : number :=
  match parse_StrDecimalLiteral (trim_start (list_ascii_of_string s)) with
  | Some (x, _) => x
  | None => NaN
  end.

(** Digits of NonDecimalIntegerLiteral in the given radix. *)
Definition radix_digit (radix : Z) (c : ascii) : option Z :=
  let n := code c in
  let v :=
    if is_digit c then Some (digit_value c)
    else if (97 <=? n)%nat && (n <=? 102)%nat then Some (Z.of_nat n - 87)
    else if (65 <=? n)%nat && (n <=? 70)%nat then Some (Z.of_nat n - 55)
    else None in
  match v with
  | Some d => if d <? radix then Some d else None
  | None => None
  end.

Fixpoint span_radix (radix : Z) (l : list ascii) (acc : Z) (seen : bool)
  : option (Z * list ascii) :=
  match l with
  | c :: l' =>
      match radix_digit radix c with
      | Some d => span_radix radix l' (radix * acc + d) true
      | None => if seen then Some (acc, l) else None
      end
  | [] => if seen then Some (acc, []) else None
  end.

Definition parse_NonDecimalIntegerLiteral (l : list ascii) : option (Z * list ascii) :=
  match l with
  | "0"%char :: c :: l' =>
      if Ascii.eqb c "x" || Ascii.eqb c "X" then span_radix 16 l' 0 false
      else if Ascii.eqb c "o" || Ascii.eqb c "O" then span_radix 8 l' 0 false
      else if Ascii.eqb c "b" || Ascii.eqb c "B" then span_radix 2 l' 0 false
      else None
  | _ => None
  end.

Definition all_whitespace (l : list ascii) : bool := forallb is_whitespace l.

(** StringToNumber: the whole string, white space at both ends apart, must
    be a StrNumericLiteral; the empty or blank string is +0.  A numeric
    literal holds no white space, so the literal is the longest literal
    prefix of the string without its leading white space, and only white
    space may follow it. *)
Definition StringToNumber (s : string) : number :=
  let l := trim_start (list_ascii_of_string s) in
  match l with
  | [] => pos_zero
  | _ =>
      match parse_NonDecimalIntegerLiteral l with
      | Some (z, rest) => if all_whitespace rest then of_Z z else NaN
      | None =>
          match parse_StrDecimalLiteral l with
          | Some (x, rest) => if all_whitespace rest then x else NaN
          | None => NaN
          end
      end
  end.

(** *** Number::toString (radix 10) *)

Definition digit_char (d : Z) : ascii := ascii_of_nat (Z.to_nat (48 + d)).

Fixpoint decimal_digits_aux (fuel : nat) (n : Z) (acc : list ascii) : list ascii :=
  match fuel with
  | O => acc
  | S fuel' =>
      let acc' := digit_char (n mod 10) :: acc in
      if n <? 10 then acc' else decimal_digits_aux fuel' (n / 10) acc'
  end.

(** The decimal representation of a non-negative integer. *)
Definition decimal_digits (n : Z) : list ascii :=
  decimal_digits_aux (S (Z.to_nat (Z.log2 n))) n [].

(** [num / den < 10 ^ n] *)
Definition lt_pow10 (num den n : Z) : bool :=
  if 0 <=? n then num <? 10 ^ n * den else num * 10 ^ (- n) <? den.

Fixpoint first_pow10_above (fuel : nat) (num den n : Z) : Z :=
  match fuel with
  | O => n
  | S fuel' =>
      if lt_pow10 num den n then n else first_pow10_above fuel' num den (n + 1)
  end.

(** The [n] with [10 ^ (n - 1) <= num / den < 10 ^ n], searched upwards
    from an estimate below it. *)
Definition decimal_exponent (num den : Z) : Z :=
  let b := Z.log2 num - Z.log2 den in
  first_pow10_above 8 num den ((b - 1) * 30102 / 100000 - 1).

(** [floor (num / den / 10 ^ t)] *)
Definition scaled_floor (num den t : Z) : Z :=
  if 0 <=? t then num / (den * 10 ^ t) else (num * 10 ^ (- t)) / den.

(** [num / den] compared with the midpoint of [s * 10^t] and [(s+1) * 10^t]. *)
Definition compare_midpoint (num den s t : Z) : comparison :=
  if 0 <=? t then Z.compare (2 * num) ((2 * s + 1) * 10 ^ t * den)
  else Z.compare (2 * num * 10 ^ (- t)) ((2 * s + 1) * den).

(** The integers [s] and [t] with the fewest digits [k] in [s] such that
    the Number value of [s * 10^t] is [x]; among several [s] the one
    closest to [x], the even one on a tie.  [x] is [num / den], positive,
    and [n0] is its decimal exponent. *)
Fixpoint shortest_decimal (fuel : nat) (x : number) (num den n0 k : Z) : Z * Z :=
  let t := n0 - k in
  let lo := scaled_floor num den t in
  let hi := lo + 1 in
  match fuel with
  | O => (lo, t)
  | S fuel' =>
      match number_is x (of_decimal false lo t), number_is x (of_decimal false hi t) with
      | true, true =>
          match compare_midpoint num den lo t with
          | Lt => (lo, t)
          | Gt => (hi, t)
          | Eq => if Z.even lo then (lo, t) else (hi, t)
          end
      | true, false => (lo, t)
      | false, true => (hi, t)
      | false, false => shortest_decimal fuel' x num den n0 (k + 1)
      end
  end.

Fixpoint strip_zeros (fuel : nat) (st : Z * Z) : Z * Z :=
  match fuel with
  | O => st
  | S fuel' =>
      let '(s, t) := st in
      if (0 <? s) && (s mod 10 =? 0) then strip_zeros fuel' (s / 10, t + 1) else st
  end.

Definition exponent_suffix (n : Z) : list ascii :=
  let ex := n - 1 in
  "e"%char :: (if 0 <=? ex then "+"%char else "-"%char) :: decimal_digits (Z.abs ex).

(** The String for the positive finite Number [x = m * 2^e]. *)
Definition NumberToString_finite (x : number) (m : positive) (e : Z) : list ascii :=
  let num := if 0 <=? e then Zpos m * 2 ^ e else Zpos m in
  let den := if 0 <=? e then 1 else 2 ^ (- e) in
  let n0 := decimal_exponent num den in
  let '(s, t) := strip_zeros 20 (shortest_decimal 17 x num den n0 1) in
  let ds := decimal_digits s in
  let k := Z.of_nat (length ds) in
  let n := t + k in
  if (k <=? n) && (n <=? 21) then ds ++ repeat "0"%char (Z.to_nat (n - k))
  else if (0 <? n) && (n <=? 21) then take (Z.to_nat n) ds ++ "."%char :: drop (Z.to_nat n) ds
  else if (-6 <? n) && (n <=? 0) then
    "0"%char :: "."%char :: repeat "0"%char (Z.to_nat (- n)) ++ ds
  else
    match ds with
    | d :: (_ :: _) as rest => d :: "."%char :: rest
    | _ => ds
    end ++ exponent_suffix n.

Definition NumberToString (x : number) : string :=
  match x with
  | S754_nan => "NaN"
  | S754_zero _ => "0"
  | S754_infinity s => if s then "-Infinity" else "Infinity"
  | S754_finite s m e =>
      string_of_list_ascii
        ((if s then ["-"%char] else []) ++ NumberToString_finite (S754_finite false m e) m e)
  end.

End Str.

(** ** JavaScript values and the built-ins used by the analysis *)

Module JS.

Import Num.

(** The values a row can hold (what the CSV and spreadsheet readers
    produce), with [undefined] for a missing property. *)
Inductive value :=
| VUndefined
| VNull
| VBoolean (b : bool)
| VNumber (x : number)
| VString (s : string).

Definition ToString (v : value) : string :=
  match v with
  | VUndefined => "undefined"
  | VNull => "null"
  | VBoolean b => if b then "true" else "false"
  | VNumber x => Str.NumberToString x
  | VString s => s
  end.

Definition ToNumber (v : value) : number :=
  match v with
  | VUndefined => NaN
  | VNull => pos_zero
  | VBoolean b => if b then of_Z 1 else pos_zero
  | VNumber x => x
  | VString s => Str.StringToNumber s
  end.

Definition ToBoolean (v : value) : bool :=
  match v with
  | VUndefined | VNull => false
  | VBoolean b => b
  | VNumber x => negb (is_zero x || is_nan x)
  | VString s => negb (String.eqb s "")
  end.

(** [a === b] *)
Definition strict_equal (a b : value) : bool :=
  match a, b with
  | VUndefined, VUndefined => true
  | VNull, VNull => true
  | VBoolean x, VBoolean y => Bool.eqb x y
  | VNumber x, VNumber y => SFeqb x y
  | VString s, VString t => String.eqb s t
  | _, _ => false
  end.

(** The global functions [parseFloat], [isNaN] and [isFinite]: the first
    converts its argument with ToString, the other two with ToNumber. *)
Definition parseFloat (v : value) : number := Str.parseFloat (ToString v).
Definition isNaN (v : value) : bool := is_nan (ToNumber v).
Definition isFinite (v : value) : bool := is_finite (ToNumber v).

(** An object as the list of its own properties, in [Object.keys] order. *)
Definition object := list (string * value).

Definition Object_keys (o : object) : list string := map fst o.

(** [o[key]]: [undefined] when the property is missing. *)
Fixpoint get (o : object) (key : string) : value :=
  match o with
  | [] => VUndefined
  | (k, v) :: o' => if String.eqb k key then v else get o' key
  end.

(** [Math.min(...args)] and [Math.max(...args)] on Numbers. *)
Fixpoint min_loop (lowest : number) (args : list number) : number :=
  match args with
  | [] => lowest
  | x :: args' =>
      if is_nan x then NaN
      else
        let lowest1 :=
          if number_is neg_zero x && number_is pos_zero lowest then neg_zero else lowest in
        min_loop (if ltb x lowest1 then x else lowest1) args'
  end.

Fixpoint max_loop (highest : number) (args : list number) : number :=
  match args with
  | [] => highest
  | x :: args' =>
      if is_nan x then NaN
      else
        let highest1 :=
          if number_is pos_zero x && number_is neg_zero highest then pos_zero else highest in
        max_loop (if ltb highest1 x then x else highest1) args'
  end.

Definition Math_min (args : list number) : number := min_loop Infinity args.
Definition Math_max (args : list number) : number := max_loop (S754_infinity true) args.

(** [Array.prototype.sort(comparefn)].  SortCompare turns a NaN result of
    the comparison function into +0; the order of the result is the stable
    one, produced here by insertion: an element moves past those the
    comparison function puts strictly before it. *)
Definition SortCompare (comparefn : number -> number -> number) (x y : number) : number :=
  let v := comparefn x y in
  if is_nan v then pos_zero else v.

Fixpoint sort_insert (comparefn : number -> number -> number) (x : number)
  (sorted : list number) : list number :=
  match sorted with
  | [] => [x]
  | y :: sorted' =>
      if is_positive (SortCompare comparefn x y)
      then y :: sort_insert comparefn x sorted'
      else x :: sorted
  end.

Fixpoint sort (comparefn : number -> number -> number) (l : list number) : list number :=
  match l with
  | [] => []
  | x :: l' => sort_insert comparefn x (sort comparefn l')
  end.

End JS.

(** ** The analysis: [analyzeSurveyData] *)

Module Survey.

Import Num JS.

(** The entry of a numeric column in [quantitativeAnalysis]. *)
Record NumericStats := {
  count : nat;
  sum : number;
  average : number;
  min : number;
  max : number;
  median : number
}.

(** The entry of a text column in [qualitativeAnalysis]. *)
Record QualitativeSummary := {
  totalEntries : nat;
  nonEmptyEntries : nat;
  sampleComments : list value
}.

Record Metadata := {
  totalRows : nat;
  totalColumns : nat;
  numericColumns : list string;
  textColumns : list string
}.

(** What the function returns: [{ error }] or
    [{ quantitative, qualitative, metadata }]. *)
Inductive AnalysisResult :=
| Error (error : string)
| Analysis (quantitative : gmap string NumericStats)
           (qualitative : gmap string QualitativeSummary)
           (metadata : Metadata).

(** A [for (let i = start; i < start + n; i++)] loop over a state. *)
Fixpoint for_loop {A : Type} (body : nat -> A -> A) (n i : nat) (st : A) : A :=
  match n with
  | O => st
  | S n' => for_loop body n' (S i) (body i st)
  end.

(** Line 98: [value !== undefined && value !== null && value !== ''] *)
Definition is_valid (value : value) : bool :=
  negb (strict_equal value VUndefined)
  && negb (strict_equal value VNull)
  && negb (strict_equal value (VString "")).

(** Line 100: [!isNaN(parseFloat(value)) && isFinite(value)] *)
Definition is_numeric (value : value) : bool :=
  negb (isNaN (VNumber (parseFloat value))) && isFinite value.

(** Lines 98-103, on the state [(numericCount, totalValid)]. *)
Definition count_value (st : nat * nat) (value : value) : nat * nat :=
  let '(numericCount, totalValid) := st in
  if is_valid value
  then (if is_numeric value then S numericCount else numericCount, S totalValid)
  else st.

(** Lines 97-103: the loop body at index [i].  The loop only reads indices
    below [data.length], so the row is always there. *)
Definition count_row (data : list object) (key : string) (i : nat)
  (st : nat * nat) : nat * nat :=
  match data !! i with
  | Some row => let value := get row key in count_value st value
  | None => st
  end.

(** Lines 93-104: the counters after the loop over the first 100 rows. *)
Definition count_column (data : list object) (key : string) : nat * nat :=
  for_loop (count_row data key) (Nat.min (length data) 100) 0 (0%nat, 0%nat).

Definition half : number := of_decimal false 5 (-1).

(** Line 106: [totalValid > 0 && (numericCount / totalValid) >= 0.5] *)
Definition mostly_numeric (st : nat * nat) : bool :=
  let '(numericCount, totalValid) := st in
  (0 <? totalValid)%nat && leb half (div (of_nat numericCount) (of_nat totalValid)).

(** Lines 88-109: [allKeys.forEach] pushing the numeric keys. *)
Definition classify (data : list object) (allKeys : list string) : list string :=
  fold_left
    (fun numericColumns key =>
       if mostly_numeric (count_column data key)
       then numericColumns ++ [key]
       else numericColumns)
    allKeys [].

(** Line 114: [data.map(row => parseFloat(row[column])).filter(val => !isNaN(val))] *)
Definition column_values (data : list object) (column : string) : list number :=
  List.filter (fun val => negb (isNaN (VNumber val)))
              (map (fun row => parseFloat (get row column)) data).

(** Lines 123-127.  The list is not empty, so both indices are in range. *)
Definition median_of (values : list number) : number :=
  let sortedValues := sort (fun a b => sub a b) values in
  let midIndex := (length sortedValues / 2)%nat in
  if (length sortedValues mod 2 =? 0)%nat
  then div (add (nth (midIndex - 1) sortedValues NaN) (nth midIndex sortedValues NaN))
           (of_Z 2)
  else nth midIndex sortedValues NaN.

(** Lines 117-136 *)
Definition column_stats (values : list number) : NumericStats :=
  let sum := fold_left (fun acc val => add acc val) values pos_zero in
  {| count := length values;
     sum := sum;
     average := div sum (of_nat (length values));
     min := Math_min values;
     max := Math_max values;
     median := median_of values |}.

(** Lines 112-138: [numericColumns.forEach] filling [quantitativeAnalysis]. *)
Definition quantitative_analysis (data : list object) (numericColumns : list string)
  : gmap string NumericStats :=
  fold_left
    (fun quantitativeAnalysis column =>
       let values := column_values data column in
       if (0 <? length values)%nat
       then <[column := column_stats values]> quantitativeAnalysis
       else quantitativeAnalysis)
    numericColumns ∅.

(** Line 141: [allKeys.filter(key => !numericColumns.includes(key))] *)
Definition includes (l : list string) (key : string) : bool :=
  existsb (String.eqb key) l.

Definition text_columns (allKeys numericColumns : list string) : list string :=
  List.filter (fun key => negb (includes numericColumns key)) allKeys.

(** Line 148: [comment && String(comment).trim().length > 0] *)
Definition keep_comment (comment : value) : bool :=
  ToBoolean comment && (0 <? String.length (Str.trim (ToString comment)))%nat.

(** Lines 146-149 *)
Definition column_comments (data : list object) (column : string) : list value :=
  take 50 (List.filter keep_comment (map (fun row => get row column) data)).

(** Lines 151-155 *)
Definition column_summary (data : list object) (column : string) : QualitativeSummary :=
  let comments := column_comments data column in
  {| totalEntries := length data;
     nonEmptyEntries := length comments;
     sampleComments := take 10 comments |}.

(** Lines 142-156: [textColumns.forEach] filling [qualitativeAnalysis]. *)
Definition qualitative_analysis (data : list object) (textColumns : list string)
  : gmap string QualitativeSummary :=
  fold_left
    (fun qualitativeAnalysis column =>
       <[column := column_summary data column]> qualitativeAnalysis)
    textColumns ∅.

(** Lines 111-167, for the numeric columns the classification found. *)
Definition assemble (data : list object) (allKeys numericColumns : list string)
  : AnalysisResult :=
  let quantitativeAnalysis := quantitative_analysis data numericColumns in
  let textColumns := text_columns allKeys numericColumns in
  let qualitativeAnalysis := qualitative_analysis data textColumns in
  Analysis quantitativeAnalysis qualitativeAnalysis
    {| totalRows := length data;
       totalColumns := length allKeys;
       numericColumns := numericColumns;
       textColumns := textColumns |}.

(** Lines 82-168.  [data] is an array, so [!data] is false and the guard of
    line 83 is [data.length === 0]. *)
Definition analyzeSurveyData (data : list object) : AnalysisResult :=
  match data with
  | [] => Error "No data to analyze"
  | first :: _ =>
      let allKeys := Object_keys first in
      assemble data allKeys (classify data allKeys)
  end.

End Survey.

(** ** The specification's vocabulary *)

Module Spec.

Import Num JS Survey.

(** Sample window: the first [min(rowCount, 100)] rows. *)
Definition sample_window (data : list object) : list object :=
  take (Nat.min (length data) 100) data.

(** The values of a column over some rows, in row order. *)
Definition column (key : string) (rows : list object) : list value :=
  map (fun row => get row key) rows.

(** A value that is present and not null or the empty string. *)
Definition present (v : value) : Prop :=
  v <> VUndefined /\ v <> VNull /\ v <> VString "".

(** Numeric-like, in the glossary's words: the string form has a valid
    leading numeric prefix that parses to a finite floating-point number. *)
Definition numeric_like (v : value) : bool :=
  is_finite (Str.parseFloat (ToString v)).


(** The first row's keys: the canonical column order. *)
Definition allColumnNames (data : list object) : list string :=
  Object_keys (hd [] data).

(** The string form is empty after trimming white space. *)
Definition blank (s : string) : bool :=
  Str.all_whitespace (list_ascii_of_string s).

(** The Qualitative Sampler's filter, in the specification's words: the
    value is not missing and its string form is not blank. *)
Definition non_empty (v : value) : bool :=
  match v with
  | VUndefined | VNull => false
  | _ => negb (blank (ToString v))
  end.

(** The parsed values of a list of values: each is converted by leading
    prefix parsing, and the conversions that fail (NaN) are discarded. *)
Definition parsed_values (inputs : list value) : list number :=
  List.filter (fun x => negb (is_nan x)) (map parseFloat inputs).

(** A list of Numbers without NaN: what the filter of line 114 leaves. *)
Definition no_nan (l : list number) : Prop :=
  Forall (fun x => is_nan x = false) l.

(** A list of binary64 values: every mantissa is canonical. *)
Definition all_valid (l : list number) : Prop :=
  Forall (fun x => valid x = true) l.

(** A least and a greatest element of a list of Numbers. *)
Definition least (x : number) (l : list number) : Prop :=
  In x l /\ forall y, In y l -> leb x y = true.

Definition greatest (x : number) (l : list number) : Prop :=
  In x l /\ forall y, In y l -> leb y x = true.

(** Ascending order. *)
Definition ascending (l : list number) : Prop :=
  Sorted (fun x y => leb x y = true) l.

(** The median of a sorted list: the middle element, or the mean of the
    two middle elements. *)
Definition middle (sorted : list number) : number :=
  let n := length sorted in
  if Nat.even n
  then div (add (nth (n / 2 - 1) sorted NaN) (nth (n / 2) sorted NaN)) (of_Z 2)
  else nth (n / 2) sorted NaN.

End Spec.

(** ** Example datasets *)

Module Examples.

Import Num JS.

(** The scenario of the specification: three rows, [age] and [comment]. *)
Definition scenario : list object :=
  [ [("age", VString "25"); ("comment", VString "good")];
    [("age", VString "30"); ("comment", VString "")];
    [("age", VString "invalid"); ("comment", VString "great")] ].


(** A text column that holds the number 0 on its last row. *)
Definition zero_comment : list object :=
  [ [("note", VString "n/a")];
    [("note", VString "none")];
    [("note", VNumber (of_Z 0))] ].



End Examples.

(** * Properties *)

Import Num JS Survey.


(** Runs the analysis on a concrete dataset and names the parts of its
    result. *)
Ltac run_analysis data q ql md E :=
  destruct (analyzeSurveyData data) as [?|q ql md] eqn:E;
  [vm_compute in E; discriminate E|];
  let E0 := fresh in
  pose proof E as E0; vm_compute in E0;
  injection E0 as <- <- <-.

(** ** The built-ins on concrete inputs *)

Example parseFloat_prefix : Str.parseFloat "12abc" = of_Z 12.
Proof. vm_compute. reflexivity. Qed.

Example parseFloat_leading_space : Str.parseFloat "  -27.5e0xyz" = of_decimal true 275 (-1).
Proof. vm_compute. reflexivity. Qed.

Example parseFloat_no_prefix : Str.parseFloat "invalid" = NaN.
Proof. vm_compute. reflexivity. Qed.

Example parseFloat_hex : Str.parseFloat "0x1A" = pos_zero.
Proof. vm_compute. reflexivity. Qed.

Example StringToNumber_trailing : Str.StringToNumber "12abc" = NaN.
Proof. vm_compute. reflexivity. Qed.

Example StringToNumber_hex : Str.StringToNumber " 0x1A " = of_Z 26.
Proof. vm_compute. reflexivity. Qed.

Example StringToNumber_blank : Str.StringToNumber "   " = pos_zero.
Proof. vm_compute. reflexivity. Qed.

Example StringToNumber_overflow : Str.StringToNumber "1e309" = Infinity.
Proof. vm_compute. reflexivity. Qed.

Example of_decimal_tenth :
  of_decimal false 1 (-1) = S754_finite false 7205759403792794 (-56).
Proof. vm_compute. reflexivity. Qed.

Example NumberToString_sum :
  Str.NumberToString (add (Str.parseFloat "0.1") (Str.parseFloat "0.2"))
  = "0.30000000000000004"%string.
Proof. vm_compute. reflexivity. Qed.

Example NumberToString_exponent :
  map (fun s => Str.NumberToString (Str.parseFloat s))
      ["25"; "1e21"; "1e-7"; "5e-324"; "-4.35"; "123456789012345680000"]%string
  = ["25"; "1e+21"; "1e-7"; "5e-324"; "-4.35"; "123456789012345680000"]%string.
Proof. vm_compute. reflexivity. Qed.

Example parseFloat_number_round_trip :
  map (fun x => parseFloat (VNumber x))
      [of_Z 25; of_decimal false 1 (-1); neg_zero; Infinity; NaN]
  = [of_Z 25; of_decimal false 1 (-1); pos_zero; Infinity; NaN].
Proof. vm_compute. reflexivity. Qed.

Example trim_both_ends : Str.trim "  a b  " = "a b"%string.
Proof. vm_compute. reflexivity. Qed.

Example analysis_of_scenario :
  analyzeSurveyData Examples.scenario
  = Analysis
      {[ "age"%string :=
           {| count := 2;
              sum := of_Z 55;
              average := of_decimal false 275 (-1);
              min := of_Z 25;
              max := of_Z 30;
              median := of_decimal false 275 (-1) |} ]}
      {[ "comment"%string :=
           {| totalEntries := 3;
              nonEmptyEntries := 2;
              sampleComments := [VString "good"; VString "great"] |} ]}
      {| totalRows := 3;
         totalColumns := 2;
         numericColumns := ["age"%string];
         textColumns := ["comment"%string] |}.
Proof. vm_compute. reflexivity. Qed.
(** ** Rounding never produces NaN *)

Section Rounding.

Lemma iter_pos_invariant {A : Type} (P : A -> Prop) (f : A -> A) :
  (forall x, P x -> P (f x)) ->
  forall (n : positive) (x : A), P x -> P (SpecFloat.iter_pos f n x).
Proof.
  intros Hf. induction n as [n IH|n IH|]; intros x Hx; cbn; auto.
Qed.

Lemma shr_1_nonneg (mrs : shr_record) : 0 <= shr_m mrs -> 0 <= shr_m (shr_1 mrs).
Proof.
  destruct mrs as [m r s]. cbn.
  destruct m as [|[p|p|]|p]; cbn; lia.
Qed.

Lemma shr_nonneg (mrs : shr_record) (e n : Z) :
  0 <= shr_m mrs -> 0 <= shr_m (fst (shr mrs e n)).
Proof.
  intros H. destruct n as [|p|p]; cbn; try assumption.
  now apply (iter_pos_invariant (fun r => 0 <= shr_m r) shr_1 shr_1_nonneg).
Qed.

Lemma shr_record_of_loc_m (m : Z) (l : location) : shr_m (shr_record_of_loc m l) = m.
Proof. destruct l as [|[]]; reflexivity. Qed.

Lemma shr_fexp_nonneg (m e : Z) (l : location) :
  0 <= m -> 0 <= shr_m (fst (shr_fexp prec emax m e l)).
Proof.
  intros H. unfold shr_fexp. apply shr_nonneg. now rewrite shr_record_of_loc_m.
Qed.

Lemma round_nearest_even_nonneg (m : Z) (l : location) :
  0 <= m -> 0 <= round_nearest_even m l.
Proof.
  intros H. destruct l as [|[]]; cbn; try assumption.
  - destruct (Z.even m); lia.
  - lia.
Qed.

Lemma binary_round_aux_signed (s : bool) (m e : Z) (l : location) :
  0 <= m -> signed s (binary_round_aux prec emax s m e l).
Proof.
  intros H. unfold binary_round_aux.
  destruct (shr_fexp prec emax m e l) as [mrs' e'] eqn:E1.
  destruct (shr_fexp prec emax _ e' loc_Exact) as [mrs'' e''] eqn:E2.
  assert (H1 : 0 <= shr_m mrs').
  { change mrs' with (fst (mrs', e')). rewrite <- E1. now apply shr_fexp_nonneg. }
  assert (H2 : 0 <= shr_m mrs'').
  { change mrs'' with (fst (mrs'', e'')). rewrite <- E2.
    apply shr_fexp_nonneg. now apply round_nearest_even_nonneg. }
  destruct (shr_m mrs'') as [|p|p]; cbn; try reflexivity; try lia.
  destruct (e'' <=? _); reflexivity.
Qed.

Lemma binary_round_signed (s : bool) (m : positive) (e : Z) :
  signed s (binary_round prec emax s m e).
Proof.
  unfold binary_round. destruct (shl_align _ _ _) as [mz ez].
  apply binary_round_aux_signed. lia.
Qed.

Lemma signed_not_nan (s : bool) (x : number) : signed s x -> is_nan x = false.
Proof. destruct x; cbn; tauto. Qed.

Lemma binary_normalize_not_nan (m e : Z) (szero : bool) :
  is_nan (binary_normalize prec emax m e szero) = false.
Proof.
  destruct m as [|p|p]; cbn; [reflexivity| |];
    eapply signed_not_nan, binary_round_signed.
Qed.

Lemma SFdiv_core_binary_nonneg (m1 e1 m2 e2 : Z) :
  0 <= m1 -> 0 < m2 ->
  0 <= fst (fst (SFdiv_core_binary prec emax m1 e1 m2 e2)).
Proof.
  intros H1 H2. unfold SFdiv_core_binary.
  set (s := e1 - e2 - _).
  set (m' := match s with 0 => m1 | Z.pos _ => Z.shiftl m1 s | Z.neg _ => 0 end).
  assert (Hm : 0 <= m').
  { unfold m'. destruct s; try lia. apply Z.shiftl_nonneg. lia. }
  pose proof (Z_div_mod m' m2 ltac:(lia)) as D.
  destruct (Z.div_eucl m' m2) as [q r]. cbn. nia.
Qed.

Lemma of_decimal_not_nan (neg : bool) (m e : Z) : is_nan (of_decimal neg m e) = false.
Proof.
  unfold of_decimal. destruct m as [|p|p]; try reflexivity.
  destruct (Z.leb_spec 0 e); [apply binary_normalize_not_nan|].
  pose proof (SFdiv_core_binary_nonneg (Z.pos p) 0 (10 ^ (- e)) 0) as Hq.
  destruct (SFdiv_core_binary _ _ _ _ _ _) as [[q e'] l].
  apply (signed_not_nan neg), binary_round_aux_signed.
  apply Hq; [lia|]. apply Z.pow_pos_nonneg; lia.
Qed.

End Rounding.

(** ** The orchestrator *)

Lemma analyze_nonempty (first : object) (rest : list object) :
  let data := first :: rest in
  let allKeys := Object_keys first in
  analyzeSurveyData data = assemble data allKeys (classify data allKeys).
Proof. reflexivity. Qed.

Lemma analyze_inv (data : list object) q ql md :
  analyzeSurveyData data = Analysis q ql md ->
  data <> [] /\
  let allKeys := Spec.allColumnNames data in
  let numeric := classify data allKeys in
  q = quantitative_analysis data numeric /\
  ql = qualitative_analysis data (text_columns allKeys numeric) /\
  md = {| totalRows := length data;
          totalColumns := length allKeys;
          numericColumns := numeric;
          textColumns := text_columns allKeys numeric |}.
Proof.
  destruct data as [|first rest]; [discriminate|].
  unfold analyzeSurveyData, assemble, Spec.allColumnNames. cbn [hd].
  intros H. injection H as <- <- <-. split; [discriminate|]. auto.
Qed.

(** ** The classifier *)

Section Classifier.

Variable data : list object.

(** The [forEach] with [push] keeps the keys that pass, in order. *)
Lemma classify_filter (allKeys : list string) :
  classify data allKeys
  = List.filter (fun key => mostly_numeric (count_column data key)) allKeys.
Proof.
  unfold classify.
  enough (G : forall acc,
    fold_left
      (fun numericColumns key =>
         if mostly_numeric (count_column data key)
         then numericColumns ++ [key] else numericColumns) allKeys acc
    = acc ++ List.filter (fun key => mostly_numeric (count_column data key)) allKeys)
    by apply (G []).
  induction allKeys as [|k ks IH]; intros acc; cbn.
  - now rewrite app_nil_r.
  - rewrite IH. destruct (mostly_numeric _); [|reflexivity].
    now rewrite <- app_assoc.
Qed.

Lemma includes_In (l : list string) (key : string) :
  includes l key = true <-> In key l.
Proof.
  unfold includes. rewrite existsb_exists. split.
  - intros (x & Hx & E). apply String.eqb_eq in E. now subst.
  - intros H. exists key. split; [assumption|apply String.eqb_refl].
Qed.

(** The text columns are the keys that fail the numeric test. *)
Lemma text_columns_filter (allKeys : list string) :
  text_columns allKeys (classify data allKeys)
  = List.filter (fun key => negb (mostly_numeric (count_column data key))) allKeys.
Proof.
  unfold text_columns. apply filter_ext_in. intros k Hk. f_equal.
  apply eq_true_iff_eq. rewrite includes_In, classify_filter, filter_In. tauto.
Qed.

End Classifier.

Section SampleLoop.

Variables (data : list object) (key : string).

Lemma count_row_lookup (i : nat) (row : object) (st : nat * nat) :
  data !! i = Some row -> count_row data key i st = count_value st (get row key).
Proof. intros H. unfold count_row. now rewrite H. Qed.

(** The index loop visits rows [i], ..., [i + n - 1], in order. *)
Lemma for_loop_rows (n i : nat) (st : nat * nat) :
  (i + n <= length data)%nat ->
  for_loop (count_row data key) n i st
  = fold_left count_value (Spec.column key (take n (drop i data))) st.
Proof.
  revert i st. induction n as [|n IH]; intros i st Hle; [reflexivity|].
  destruct (lookup_lt_is_Some_2 data i) as [row Hrow]; [lia|].
  cbn [for_loop]. rewrite IH by lia.
  rewrite (drop_S _ _ _ Hrow). cbn. now rewrite (count_row_lookup _ _ _ Hrow).
Qed.

Lemma fold_count_value (vs : list value) (st : nat * nat) :
  fold_left count_value vs st
  = ((fst st + length (List.filter is_numeric (List.filter is_valid vs)))%nat,
     (snd st + length (List.filter is_valid vs))%nat).
Proof.
  revert st. induction vs as [|v vs IH]; intros [nc tv]; cbn.
  - f_equal; lia.
  - rewrite IH.
    destruct (is_valid v); cbn; [|reflexivity].
    destruct (is_numeric v); cbn; f_equal; lia.
Qed.

(** The counters after the loop, as counts over the sample window. *)
Lemma count_column_window :
  let sampled := Spec.column key (Spec.sample_window data) in
  count_column data key
  = (length (List.filter is_numeric (List.filter is_valid sampled)),
     length (List.filter is_valid sampled)).
Proof.
  unfold count_column, Spec.sample_window.
  rewrite for_loop_rows by lia. rewrite drop_0. now rewrite fold_count_value.
Qed.

End SampleLoop.

Lemma is_valid_present (v : value) : is_valid v = true <-> Spec.present v.
Proof.
  unfold Spec.present. destruct v as [| |b|x|s]; cbn; try (intuition congruence).
  destruct (String.eqb_spec s ""); cbn; intuition congruence.
Qed.

(** The quotient of two counters of at most 100 rows, compared with 0.5 in
    binary64, decides the exact comparison. *)
Lemma ratio_table :
  forallb
    (fun totalValid =>
       forallb
         (fun numericCount =>
            Bool.eqb (leb half (div (of_nat numericCount) (of_nat totalValid)))
                     (totalValid <=? 2 * numericCount)%nat)
         (seq 0 (S totalValid)))
    (seq 1 100) = true.
Proof. vm_compute. reflexivity. Qed.

Lemma ratio_test (numericCount totalValid : nat) :
  (numericCount <= totalValid <= 100)%nat -> (0 < totalValid)%nat ->
  leb half (div (of_nat numericCount) (of_nat totalValid))
  = (totalValid <=? 2 * numericCount)%nat.
Proof.
  intros Hb Hpos.
  pose proof (proj1 (forallb_forall _ _) ratio_table totalValid) as T.
  cbv beta in T.
  pose proof (proj1 (forallb_forall _ _) (T ltac:(apply in_seq; lia)) numericCount) as T'.
  cbv beta in T'.
  apply Bool.eqb_prop, T'. apply in_seq. lia.
Qed.



(** ** Classification of the columns *)

Lemma filter_split_Permutation {A : Type} (f : A -> bool) (l : list A) :
  Permutation (List.filter f l ++ List.filter (fun x => negb (f x)) l) l.
Proof.
  induction l as [|x l IH]; cbn; [constructor|].
  destruct (f x); cbn.
  - now constructor.
  - symmetry. apply Permutation_cons_app. now symmetry.
Qed.

Lemma filter_sublist {A : Type} (f : A -> bool) (l : list A) :
  List.filter f l `sublist_of` l.
Proof.
  induction l as [|x l IH]; cbn; [constructor|].
  destruct (f x); now constructor.
Qed.


(** C3. For every non-empty dataset, metadata.numericColumns and
    metadata.textColumns are disjoint, their union is the set of the first
    row's keys, each of them keeps the first row's key order, and their
    concatenation holds every column exactly as often as the first row's keys
    do: exactly once. *)
Theorem C3_columns_partition :
  forall (data : list object) q ql md,
    analyzeSurveyData data = Analysis q ql md ->
    let keys := Spec.allColumnNames data in
    (forall k, In k (numericColumns md) -> In k (textColumns md) -> False) /\
    (forall k, In k (numericColumns md) \/ In k (textColumns md) <-> In k keys) /\
    numericColumns md `sublist_of` keys /\
    textColumns md `sublist_of` keys /\
    Permutation (numericColumns md ++ textColumns md) keys /\
    (List.NoDup keys -> List.NoDup (numericColumns md ++ textColumns md)).
Proof.
  intros data q ql md H keys.
  apply analyze_inv in H as (_ & _ & _ & ->). cbn.
  fold keys. rewrite text_columns_filter, classify_filter.
  set (f := fun key => mostly_numeric (count_column data key)).
  repeat split.
  - intros k [_ H1]%filter_In [_ H2]%filter_In.
    apply negb_true_iff in H2. unfold f in H1. congruence.
  - intros [[H _]%filter_In|[H _]%filter_In]; exact H.
  - intros Hk. rewrite !filter_In. unfold f.
    destruct (mostly_numeric (count_column data k)); [left|right]; split; auto.
  - apply filter_sublist.
  - apply (filter_sublist (fun key => negb (f key))).
  - apply filter_split_Permutation.
  - intros Hnd. apply (Permutation_NoDup (l := keys)); [|exact Hnd].
    symmetry. apply filter_split_Permutation.
Qed.

Lemma C3_columns_partition_witness :
  exists q ql md,
    analyzeSurveyData Examples.scenario = Analysis q ql md /\
    numericColumns md = ["age"] /\ textColumns md = ["comment"] /\
    Permutation (numericColumns md ++ textColumns md)
                (Spec.allColumnNames Examples.scenario).
Proof.
  run_analysis Examples.scenario q ql md E.
  eexists _, _, _. split; [reflexivity|].
  split; [reflexivity|]. split; [reflexivity|].
  exact (proj1 (proj2 (proj2 (proj2 (proj2
    (C3_columns_partition Examples.scenario _ _ _ E)))))).
Defined.



(** ** The numeric test of the classifier *)

Section NumericTest.

Import Str.

Lemma trim_start_blank (l : list ascii) :
  trim_start l = [] <-> all_whitespace l = true.
Proof.
  induction l as [|c l IH]; cbn; [tauto|].
  destruct (is_whitespace c); cbn; [exact IH|]. split; discriminate.
Qed.

Lemma digit_not_sign (c : ascii) :
  is_digit c = true -> Ascii.eqb c "+" = false /\ Ascii.eqb c "-" = false.
Proof.
  intros H. split.
  - destruct (Ascii.eqb_spec c "+") as [->|]; [vm_compute in H; discriminate H|reflexivity].
  - destruct (Ascii.eqb_spec c "-") as [->|]; [vm_compute in H; discriminate H|reflexivity].
Qed.

Lemma digit_not_Infinity (c : ascii) (l : list ascii) :
  is_digit c = true -> strip_prefix (list_ascii_of_string "Infinity") (c :: l) = None.
Proof.
  intros H. cbn [list_ascii_of_string strip_prefix].
  destruct (Ascii.eqb_spec "I" c) as [<-|]; [vm_compute in H; discriminate H|reflexivity].
Qed.

(** A string that starts with a digit has a decimal literal as prefix. *)
Lemma parse_unsigned_digit (c : ascii) (l : list ascii) :
  is_digit c = true ->
  exists m e rest, parse_StrUnsignedDecimalLiteral (c :: l) = Some (Some (m, e), rest).
Proof.
  intros H. unfold parse_StrUnsignedDecimalLiteral.
  rewrite (digit_not_Infinity _ _ H).
  cbn [span_digits]. rewrite H.
  destruct (span_digits l) as [ds r1].
  destruct (strip_prefix _ r1) as [r2|].
  - destruct (span_digits r2) as [frac r3]. cbn [is_nil andb].
    destruct (parse_exponent r3) as [ex r4]. eauto.
  - cbn [is_nil]. destruct (parse_exponent r1) as [ex r4]. eauto.
Qed.

Lemma parse_decimal_digit (c : ascii) (l : list ascii) :
  is_digit c = true ->
  exists m e rest, parse_StrDecimalLiteral (c :: l) = Some (of_decimal false m e, rest).
Proof.
  intros H. unfold parse_StrDecimalLiteral, parse_sign.
  destruct (digit_not_sign _ H) as [-> ->].
  destruct (parse_unsigned_digit c l H) as (m & e & rest & ->). eauto.
Qed.

Lemma parse_decimal_signed_digit (c : ascii) (l : list ascii) :
  is_digit c = true ->
  exists m e rest,
    parse_StrDecimalLiteral ("-"%char :: c :: l) = Some (of_decimal true m e, rest).
Proof.
  intros H. unfold parse_StrDecimalLiteral, parse_sign. cbn [Ascii.eqb Bool.eqb].
  destruct (parse_unsigned_digit c l H) as (m & e & rest & ->). eauto.
Qed.

(** What [parseFloat] finds is never NaN: NaN means no literal prefix. *)
Lemma parse_decimal_not_nan (l rest : list ascii) (x : number) :
  parse_StrDecimalLiteral l = Some (x, rest) -> is_nan x = false.
Proof.
  unfold parse_StrDecimalLiteral. destruct (parse_sign l) as [neg l'].
  destruct (parse_StrUnsignedDecimalLiteral l') as [[[[m e]|] r]|]; intros H;
    inversion H; subst; [apply of_decimal_not_nan|reflexivity].
Qed.

Lemma parseFloat_nan (s : string) :
  is_nan (parseFloat s) = true
  <-> parse_StrDecimalLiteral (trim_start (list_ascii_of_string s)) = None.
Proof.
  unfold parseFloat.
  destruct (parse_StrDecimalLiteral _) as [[x rest]|] eqn:E; cbn.
  - rewrite (parse_decimal_not_nan _ _ _ E). split; discriminate.
  - tauto.
Qed.

Lemma non_decimal_starts_with_zero (l : list ascii) (r : Z * list ascii) :
  parse_NonDecimalIntegerLiteral l = Some r -> exists l', l = "0"%char :: l'.
Proof.
  unfold parse_NonDecimalIntegerLiteral.
  destruct l as [|c l]; [discriminate|].
  destruct (Ascii.eqb_spec c "0") as [->|Hc]; [eauto|].
  destruct c as [[] [] [] [] [] [] [] []]; try discriminate; try congruence;
    destruct l; discriminate.
Qed.

(** On a String the numeric test holds exactly when the string is not
    blank and converts as a whole to a finite Number. *)
Lemma is_numeric_string (s : string) :
  is_numeric (VString s) = negb (Spec.blank s) && is_finite (StringToNumber s).
Proof.
  unfold is_numeric, isNaN, isFinite, JS.parseFloat, Spec.blank. cbn [ToString ToNumber].
  destruct (is_nan (parseFloat s)) eqn:N; cbn [negb andb].
  - apply parseFloat_nan in N. unfold StringToNumber.
    destruct (trim_start (list_ascii_of_string s)) as [|c l] eqn:T.
    + apply trim_start_blank in T. now rewrite T.
    + rewrite N.
      destruct (parse_NonDecimalIntegerLiteral (c :: l)) as [[z rest]|] eqn:P.
      * apply non_decimal_starts_with_zero in P as [l' P]. inversion P; subst.
        destruct (parse_decimal_digit "0" l' eq_refl) as (m & e & r & E).
        congruence.
      * now rewrite andb_false_r.
  - destruct (all_whitespace (list_ascii_of_string s)) eqn:B; [|reflexivity].
    exfalso. apply trim_start_blank in B. unfold parseFloat in N. rewrite B in N.
    discriminate.
Qed.

Lemma digit_char_is_digit (d : Z) : 0 <= d < 10 -> is_digit (digit_char d) = true.
Proof.
  intros H.
  assert (C : d = 0 \/ d = 1 \/ d = 2 \/ d = 3 \/ d = 4 \/ d = 5 \/ d = 6 \/ d = 7
              \/ d = 8 \/ d = 9) by lia.
  repeat (destruct C as [->|C]; [reflexivity|]). now subst.
Qed.

Lemma decimal_digits_aux_head (fuel : nat) (n : Z) (acc : list ascii) :
  (exists c l, acc = c :: l /\ is_digit c = true) \/ (0 < fuel)%nat ->
  exists c l, decimal_digits_aux fuel n acc = c :: l /\ is_digit c = true.
Proof.
  revert n acc. induction fuel as [|fuel IH]; intros n acc H; cbn.
  - destruct H as [H|H]; [exact H|lia].
  - assert (D : is_digit (digit_char (n mod 10)) = true)
      by (apply digit_char_is_digit, Z.mod_pos_bound; lia).
    destruct (n <? 10); [eauto|]. apply IH. left. eauto.
Qed.

Lemma decimal_digits_head (n : Z) :
  exists c l, decimal_digits n = c :: l /\ is_digit c = true.
Proof. apply decimal_digits_aux_head. right. lia. Qed.

(** The String of a positive finite Number starts with a digit. *)
Lemma NumberToString_finite_head (x : number) (m : positive) (e : Z) :
  exists c l, NumberToString_finite x m e = c :: l /\ is_digit c = true.
Proof.
  unfold NumberToString_finite.
  destruct (strip_zeros _ _) as [s t].
  destruct (decimal_digits_head s) as (c & l & -> & Hc).
  set (k := Z.of_nat (length (c :: l))). set (n := t + k).
  destruct (_ && _); [cbn; eauto|].
  destruct (Z.ltb_spec 0 n) as [Hn|Hn]; cbn [andb].
  - destruct (n <=? 21).
    + destruct (Z.to_nat n) as [|n'] eqn:En; [lia|]. cbn. eauto.
    + destruct (_ && _); [exists "0"%char; eauto|].
      destruct l; cbn; eauto.
  - destruct (_ && _); [exists "0"%char; eauto|].
    destruct l; cbn; eauto.
Qed.

(** On a Number the numeric test is finiteness. *)
Lemma is_numeric_number (x : number) : is_numeric (VNumber x) = is_finite x.
Proof.
  unfold is_numeric, isNaN, isFinite, JS.parseFloat. cbn [ToString ToNumber].
  destruct x as [s|s| |s m e]; try reflexivity; [apply andb_false_r|].
  cbn [is_finite]. rewrite andb_true_r.
  apply negb_true_iff. unfold NumberToString, parseFloat.
  rewrite list_ascii_of_string_of_list_ascii.
  destruct (NumberToString_finite_head (S754_finite false m e) m e) as (c & l & -> & Hc).
  assert (W : is_whitespace c = false).
  { unfold is_digit in Hc. unfold is_whitespace.
    apply andb_true_iff in Hc as [H1%Nat.leb_le H2%Nat.leb_le].
    repeat match goal with
           | |- context [(?a <=? ?b)%nat] => destruct (Nat.leb_spec a b)
           | |- context [(?a =? ?b)%nat] => destruct (Nat.eqb_spec a b)
           end; cbn; try reflexivity; lia. }
  destruct s; cbn [app trim_start is_whitespace].
  - change (is_whitespace "-") with false. cbn iota.
    destruct (parse_decimal_signed_digit c l Hc) as (m' & e' & r & ->).
    apply of_decimal_not_nan.
  - rewrite W.
    destruct (parse_decimal_digit c l Hc) as (m' & e' & r & ->).
    apply of_decimal_not_nan.
Qed.

End NumericTest.

Lemma count_value_present (value : value) (st : nat * nat) :
  Spec.present value ->
  count_value st value
  = (if is_numeric value then S (fst st) else fst st, S (snd st)).
Proof.
  intros H%is_valid_present. unfold count_value. destruct st as [nc tv].
  now rewrite H.
Qed.

Lemma counted_iff_numeric (value : value) (st : nat * nat) :
  Spec.present value ->
  fst (count_value st value) = S (fst st) <-> is_numeric value = true.
Proof.
  intros H. rewrite (count_value_present _ _ H). cbn [fst].
  destruct (is_numeric value); split; intros E; try reflexivity; try discriminate; lia.
Qed.

(** C1, as stated, fails: the string "12abc" is present, its leading prefix
    "12" parses to the finite number 12, and yet the classifier does not
    count it, because [isFinite] converts the whole string. *)
Lemma C1_counterexample :
  let v := VString "12abc" in
  Spec.present v /\
  Spec.numeric_like v = true /\
  count_value (0%nat, 0%nat) v = (0%nat, 1%nat) /\
  ~ (forall value st,
        Spec.present value ->
        fst (count_value st value) = S (fst st) <-> Spec.numeric_like value = true).
Proof.
  cbn zeta. split; [repeat split; discriminate|].
  split; [reflexivity|]. split; [reflexivity|].
  intros H.
  specialize (H (VString "12abc") (0%nat, 0%nat) ltac:(repeat split; discriminate)).
  apply proj2 in H. specialize (H eq_refl). discriminate H.
Qed.

(** C1, amended.  For every column value that is present and non-empty, the
    classifier counts it as numeric-like (incrementing numericCount) iff its
    string form has a valid leading numeric prefix ([parseFloat] is not NaN)
    and the value as a whole converts to a finite number ([isFinite]); for a
    string this holds iff the string is not blank and, white space at its
    ends apart, is entirely a numeric literal of finite value, and for a
    number iff it is finite. *)
Theorem C1_numeric_evidence :
  forall (value : value) (st : nat * nat),
    Spec.present value ->
    let counted := fst (count_value st value) = S (fst st) in
    (counted \/ fst (count_value st value) = fst st) /\
    snd (count_value st value) = S (snd st) /\
    (counted <->
     is_nan (parseFloat value) = false /\ is_finite (ToNumber value) = true) /\
    (forall s, value = VString s ->
       (counted <-> Spec.blank s = false /\ is_finite (Str.StringToNumber s) = true)) /\
    (forall x, value = VNumber x -> (counted <-> is_finite x = true)).
Proof.
  intros value st H counted.
  pose proof (counted_iff_numeric _ st H) as C. fold counted in C.
  split.
  { unfold counted. rewrite (count_value_present _ _ H). cbn [fst].
    destruct (is_numeric value); auto. }
  split; [now rewrite (count_value_present _ _ H)|].
  split; [|split].
  - rewrite C. unfold is_numeric, isNaN, isFinite. cbn [ToNumber].
    destruct (is_nan (parseFloat value)), (is_finite (ToNumber value)); cbn;
      intuition congruence.
  - intros s E. rewrite C, E, is_numeric_string.
    destruct (Spec.blank s), (is_finite (Str.StringToNumber s)); cbn;
      intuition congruence.
  - intros x E. now rewrite C, E, is_numeric_number.
Qed.

Lemma C1_numeric_evidence_witness :
  Spec.present (VString "25") /\
  fst (count_value (0%nat, 0%nat) (VString "25")) = 1%nat /\
  fst (count_value (0%nat, 0%nat) (VNumber (of_Z 25))) = 1%nat.
Proof.
  assert (P1 : Spec.present (VString "25")) by (repeat split; discriminate).
  assert (P2 : Spec.present (VNumber (of_Z 25))) by (repeat split; discriminate).
  split; [exact P1|]. split.
  - apply (C1_numeric_evidence (VString "25") (0%nat, 0%nat) P1).
    split; reflexivity.
  - apply (proj2 (proj2 (proj2 (proj2
      (C1_numeric_evidence (VNumber (of_Z 25)) (0%nat, 0%nat) P2)))) (of_Z 25) eq_refl).
    reflexivity.
Defined.

(** ** The order of Numbers, [Math.min] and [Math.max] *)

Section Order.

Ltac compare_cases :=
  repeat match goal with
    | H : context [Pos.compare_cont Eq ?a ?b] |- _ =>
        change (Pos.compare_cont Eq a b) with (Pos.compare a b) in H
    | |- context [Pos.compare_cont Eq ?a ?b] =>
        change (Pos.compare_cont Eq a b) with (Pos.compare a b)
    end;
  repeat match goal with
    | H : context [Z.compare ?a ?b] |- _ => destruct (Z.compare_spec a b)
    | |- context [Z.compare ?a ?b] => destruct (Z.compare_spec a b)
    | H : context [Pos.compare ?a ?b] |- _ => destruct (Pos.compare_spec a b)
    | |- context [Pos.compare ?a ?b] => destruct (Pos.compare_spec a b)
    end;
  subst; cbn in *; try reflexivity; try discriminate; try lia.

Lemma leb_refl (x : number) : is_nan x = false -> leb x x = true.
Proof.
  destruct x as [s|s| |s m e]; cbn; intros H; try reflexivity; try discriminate.
  - now destruct s.
  - unfold leb, SFleb, SFcompare. destruct s; compare_cases.
Qed.

Lemma ltb_leb (x y : number) : ltb x y = true -> leb x y = true.
Proof.
  unfold ltb, leb, SFltb, SFleb. now destruct (SFcompare x y) as [[]|].
Qed.

(** The order is total on the Numbers other than NaN. *)
Lemma not_ltb_leb (x y : number) :
  is_nan x = false -> is_nan y = false -> ltb x y = false -> leb y x = true.
Proof.
  unfold ltb, leb, SFltb, SFleb, SFcompare.
  destruct x as [s1|s1| |s1 m1 e1], y as [s2|s2| |s2 m2 e2]; cbn;
    intros Hx Hy H; try discriminate; try reflexivity;
    try (destruct s1; try discriminate; try reflexivity);
    try (destruct s2; try discriminate; try reflexivity);
    compare_cases.
Qed.

Lemma leb_trans (x y z : number) :
  leb x y = true -> leb y z = true -> leb x z = true.
Proof.
  unfold leb, SFleb, SFcompare.
  destruct x as [s1|s1| |s1 m1 e1], y as [s2|s2| |s2 m2 e2], z as [s3|s3| |s3 m3 e3];
    try discriminate; try reflexivity;
    try (destruct s1); try (destruct s2); try (destruct s3);
    try discriminate; try reflexivity; intros H1 H2; compare_cases.
Qed.

Lemma leb_not_nan (x y : number) :
  leb x y = true -> is_nan x = false /\ is_nan y = false.
Proof.
  unfold leb, SFleb, SFcompare. destruct x, y; try discriminate; auto.
Qed.

Lemma leb_Infinity (y : number) : leb Infinity y = true -> y = Infinity.
Proof. destruct y as [s|[]| |[] m e]; try discriminate; reflexivity. Qed.

Lemma leb_neg_Infinity (y : number) :
  leb y (S754_infinity true) = true -> y = S754_infinity true.
Proof. destruct y as [s|[]| |[] m e]; try discriminate; reflexivity. Qed.

Lemma number_is_eq (x y : number) : number_is y x = true -> x = y.
Proof.
  destruct x as [s1|s1| |s1 m1 e1], y as [s2|s2| |s2 m2 e2]; cbn;
    try discriminate; try reflexivity.
  - intros H%Bool.eqb_prop. now subst.
  - intros H%Bool.eqb_prop. now subst.
  - intros [[H1%Bool.eqb_prop H2%Pos.eqb_eq]%andb_true_iff H3%Z.eqb_eq]%andb_true_iff.
    now subst.
Qed.

Lemma min_loop_spec (args : list number) :
  Spec.no_nan args ->
  forall lowest, is_nan lowest = false ->
    let r := min_loop lowest args in
    (r = lowest \/ In r args) /\ leb r lowest = true
    /\ forall y, In y args -> leb r y = true.
Proof.
  induction 1 as [|x args Hx Hargs IH]; intros lowest Hl; cbn.
  - split; [now left|]. split; [now apply leb_refl|]. tauto.
  - rewrite Hx.
    set (lowest1 :=
           if number_is neg_zero x && number_is pos_zero lowest then neg_zero else lowest).
    assert (H1 : (lowest1 = lowest \/ lowest1 = x) /\ leb lowest1 lowest = true).
    { unfold lowest1.
      destruct (number_is neg_zero x) eqn:E1; cbn [andb];
        [|split; [now left|now apply leb_refl]].
      destruct (number_is pos_zero lowest) eqn:E2;
        [|split; [now left|now apply leb_refl]].
      apply number_is_eq in E1, E2. subst. split; [now right|reflexivity]. }
    destruct H1 as [H1 H1'].
    assert (N1 : is_nan lowest1 = false) by (destruct H1 as [->| ->]; assumption).
    set (lowest2 := if ltb x lowest1 then x else lowest1).
    assert (H2 : (lowest2 = lowest \/ lowest2 = x)
                 /\ leb lowest2 lowest1 = true /\ leb lowest2 x = true).
    { unfold lowest2. destruct (ltb x lowest1) eqn:L.
      - split; [now right|]. split; [now apply ltb_leb|now apply leb_refl].
      - split; [tauto|]. split; [now apply leb_refl|now apply not_ltb_leb]. }
    destruct H2 as (H2 & H2' & H2'').
    assert (N2 : is_nan lowest2 = false) by (destruct H2 as [->| ->]; assumption).
    destruct (IH lowest2 N2) as (R1 & R2 & R3). fold lowest1 lowest2.
    split; [|split].
    + destruct R1 as [->|R1]; [|tauto]. destruct H2 as [->| ->]; tauto.
    + apply (leb_trans _ lowest2); [exact R2|].
      now apply (leb_trans _ lowest1).
    + intros y [<-|Hy]; [|now apply R3]. now apply (leb_trans _ lowest2).
Qed.

Lemma max_loop_spec (args : list number) :
  Spec.no_nan args ->
  forall highest, is_nan highest = false ->
    let r := max_loop highest args in
    (r = highest \/ In r args) /\ leb highest r = true
    /\ forall y, In y args -> leb y r = true.
Proof.
  induction 1 as [|x args Hx Hargs IH]; intros highest Hh; cbn.
  - split; [now left|]. split; [now apply leb_refl|]. tauto.
  - rewrite Hx.
    set (highest1 :=
           if number_is pos_zero x && number_is neg_zero highest then pos_zero else highest).
    assert (H1 : (highest1 = highest \/ highest1 = x) /\ leb highest highest1 = true).
    { unfold highest1.
      destruct (number_is pos_zero x) eqn:E1; cbn [andb];
        [|split; [now left|now apply leb_refl]].
      destruct (number_is neg_zero highest) eqn:E2;
        [|split; [now left|now apply leb_refl]].
      apply number_is_eq in E1, E2. subst. split; [now right|reflexivity]. }
    destruct H1 as [H1 H1'].
    assert (N1 : is_nan highest1 = false) by (destruct H1 as [->| ->]; assumption).
    set (highest2 := if ltb highest1 x then x else highest1).
    assert (H2 : (highest2 = highest \/ highest2 = x)
                 /\ leb highest1 highest2 = true /\ leb x highest2 = true).
    { unfold highest2. destruct (ltb highest1 x) eqn:L.
      - split; [now right|]. split; [now apply ltb_leb|now apply leb_refl].
      - split; [tauto|]. split; [now apply leb_refl|now apply not_ltb_leb]. }
    destruct H2 as (H2 & H2' & H2'').
    assert (N2 : is_nan highest2 = false) by (destruct H2 as [->| ->]; assumption).
    destruct (IH highest2 N2) as (R1 & R2 & R3). fold highest1 highest2.
    split; [|split].
    + destruct R1 as [->|R1]; [|tauto]. destruct H2 as [->| ->]; tauto.
    + apply (leb_trans _ highest2); [|exact R2].
      now apply (leb_trans _ highest1).
    + intros y [<-|Hy]; [|now apply R3]. now apply (leb_trans _ highest2).
Qed.

(** [Math.min] of a non-empty list without NaN is a least element of it,
    [Math.max] a greatest one. *)
Lemma Math_min_least (args : list number) :
  Spec.no_nan args -> args <> [] -> Spec.least (Math_min args) args.
Proof.
  intros Hn Hne. destruct (min_loop_spec args Hn Infinity eq_refl) as (R1 & _ & R3).
  fold (Math_min args) in *. split; [|exact R3].
  destruct R1 as [R1|R1]; [|exact R1].
  destruct args as [|y args]; [contradiction|].
  specialize (R3 y (or_introl eq_refl)). rewrite R1 in *.
  apply leb_Infinity in R3. subst. now left.
Qed.

Lemma Math_max_greatest (args : list number) :
  Spec.no_nan args -> args <> [] -> Spec.greatest (Math_max args) args.
Proof.
  intros Hn Hne.
  destruct (max_loop_spec args Hn (S754_infinity true) eq_refl) as (R1 & _ & R3).
  fold (Math_max args) in *. split; [|exact R3].
  destruct R1 as [R1|R1]; [|exact R1].
  destruct args as [|y args]; [contradiction|].
  specialize (R3 y (or_introl eq_refl)). rewrite R1 in *.
  apply leb_neg_Infinity in R3. subst. now left.
Qed.

End Order.

(** ** The result maps *)

Section ResultMaps.

Variable data : list object.

Lemma quantitative_fold_lookup (columns : list string)
  (acc : gmap string NumericStats) (k : string) :
  fold_left
    (fun quantitativeAnalysis column =>
       let values := column_values data column in
       if (0 <? length values)%nat
       then <[column := column_stats values]> quantitativeAnalysis
       else quantitativeAnalysis)
    columns acc !! k
  = if includes columns k && (0 <? length (column_values data k))%nat
    then Some (column_stats (column_values data k))
    else acc !! k.
Proof.
  revert acc. induction columns as [|c cs IH]; intros acc; [reflexivity|].
  cbn [fold_left]. rewrite IH. unfold includes. cbn [existsb].
  destruct (String.eqb_spec k c) as [->|Hne]; cbn [orb].
  - destruct (0 <? length (column_values data c))%nat eqn:E.
    + rewrite andb_true_r. rewrite lookup_insert_eq. now destruct (existsb _ cs).
    + now rewrite andb_false_r.
  - destruct (existsb (String.eqb k) cs && (0 <? length (column_values data k))%nat);
      [reflexivity|].
    destruct (0 <? length (column_values data c))%nat; [|reflexivity].
    now rewrite lookup_insert_ne.
Qed.

(** An entry of [quantitative] exists exactly for the listed columns with
    at least one parsed value. *)
Lemma quantitative_lookup (columns : list string) (k : string) :
  quantitative_analysis data columns !! k
  = if includes columns k && (0 <? length (column_values data k))%nat
    then Some (column_stats (column_values data k))
    else None.
Proof. unfold quantitative_analysis. now rewrite quantitative_fold_lookup. Qed.



Lemma column_values_no_nan (column : string) : Spec.no_nan (column_values data column).
Proof.
  unfold Spec.no_nan, column_values. apply List.Forall_forall.
  intros x [_ H]%filter_In. now apply negb_true_iff in H.
Qed.

(** The parsed values of a column: the rows whose conversion succeeds. *)
Lemma column_values_In (column : string) (x : number) :
  In x (column_values data column)
  <-> (exists row, parseFloat (get row column) = x /\ In row data) /\ is_nan x = false.
Proof.
  unfold column_values. rewrite filter_In, in_map_iff.
  unfold isNaN. cbn [ToNumber]. rewrite negb_true_iff. reflexivity.
Qed.

(** A column that passes the numeric rule has a sampled value that passes
    the numeric test, and so a parsed value. *)
Lemma numeric_column_has_value (key : string) :
  mostly_numeric (count_column data key) = true ->
  column_values data key <> [].
Proof.
  intros H. rewrite count_column_window in H.
  set (valid := List.filter is_valid _) in H.
  unfold mostly_numeric in H. apply andb_true_iff in H as [Hpos H].
  apply Nat.ltb_lt in Hpos.
  assert (Hb : (length (List.filter is_numeric valid) <= length valid <= 100)%nat).
  { split; [apply filter_length_le|].
    unfold valid.
    transitivity (length (Spec.column key (Spec.sample_window data)));
      [apply filter_length_le|].
    unfold Spec.column, Spec.sample_window. rewrite length_map, length_take. lia. }
  rewrite ratio_test in H by (assumption || lia). apply Nat.leb_le in H.
  destruct (List.filter is_numeric valid) as [|v vs] eqn:E; [cbn in H; lia|].
  assert (Hv : In v (List.filter is_numeric valid)) by (rewrite E; now left).
  apply filter_In in Hv as [Hv Hnum]. unfold valid in Hv.
  apply filter_In in Hv as [Hv _]. unfold Spec.column in Hv.
  apply in_map_iff in Hv as (row & <- & Hrow).
  unfold Spec.sample_window in Hrow.
  apply list_elem_of_In, elem_of_take in Hrow as (i & Hrow & _).
  apply list_elem_of_lookup_2, list_elem_of_In in Hrow.
  unfold is_numeric in Hnum. apply andb_true_iff in Hnum as [Hnum _].
  intros Hnil.
  assert (Hin : In (parseFloat (get row key)) (column_values data key)).
  { apply column_values_In. split; [eauto|].
    unfold isNaN in Hnum. cbn [ToNumber] in Hnum. now apply negb_true_iff in Hnum. }
  rewrite Hnil in Hin. contradiction.
Qed.

End ResultMaps.

(** ** The statistics engine *)

(** C4. For every Numeric-classified column the engine converts every row's
    value with [parseFloat] over the full dataset and keeps the results that
    are not NaN; when that list is not empty, the column's entry reports its
    length as count, its sum (added from left to right, starting from 0), the
    average sum / count, and a least and a greatest element as min and max.
    For the age values "25", "30", "invalid" the entry is
    {count: 2, sum: 55, average: 27.5, min: 25, max: 30, median: 27.5}. *)
Theorem C4_numeric_statistics :
  (forall (data : list object) (column : string) q ql md,
      analyzeSurveyData data = Analysis q ql md ->
      In column (numericColumns md) ->
      let converted := map (fun row => parseFloat (get row column)) data in
      let values := List.filter (fun x => negb (is_nan x)) converted in
      (forall x, In x values <->
         (exists row, In row data /\ parseFloat (get row column) = x)
         /\ is_nan x = false) /\
      (values <> [] ->
       exists stats,
        q !! column = Some stats /\
        count stats = length values /\
        sum stats = fold_left add values pos_zero /\
        average stats = div (sum stats) (of_nat (count stats)) /\
        Spec.least (min stats) values /\
        Spec.greatest (max stats) values)) /\
  is_nan (parseFloat (VString "invalid")) = true /\
  is_nan (parseFloat (VString "")) = true /\
  is_nan (parseFloat VUndefined) = true /\
  (exists q ql md,
      analyzeSurveyData Examples.scenario = Analysis q ql md /\
      q !! "age" =
        Some {| count := 2;
                sum := Str.parseFloat "55";
                average := Str.parseFloat "27.5";
                min := Str.parseFloat "25";
                max := Str.parseFloat "30";
                median := Str.parseFloat "27.5" |}).
Proof.
  split; [|split; [reflexivity|split; [reflexivity|split; [reflexivity|]]]].
  - intros data column q ql md H Hcol converted values.
    split.
    { intros x. unfold values, converted. rewrite filter_In, in_map_iff.
      rewrite negb_true_iff.
      split; intros [(row & H1 & H2) N]; (split; [exists row; split|]; assumption). }
    intros Hne.
    apply analyze_inv in H as (_ & -> & _ & ->). cbn [numericColumns] in Hcol.
    rewrite quantitative_lookup.
    apply includes_In in Hcol. rewrite Hcol. cbn [andb].
    change (column_values data column) with values.
    destruct values as [|v vs] eqn:E; [contradiction|]. rewrite <- E in *.
    replace (0 <? length values)%nat with true by (rewrite E; reflexivity).
    eexists. split; [reflexivity|]. cbn.
    repeat split; try reflexivity.
    + apply Math_min_least; [apply column_values_no_nan|assumption].
    + apply Math_min_least; [apply column_values_no_nan|assumption].
    + apply Math_max_greatest; [apply column_values_no_nan|assumption].
    + apply Math_max_greatest; [apply column_values_no_nan|assumption].
  - eexists _, _, _. split; vm_compute; reflexivity.
Qed.

Lemma C4_numeric_statistics_witness :
  exists q ql md stats,
    analyzeSurveyData Examples.scenario = Analysis q ql md /\
    In "age" (numericColumns md) /\
    q !! "age" = Some stats /\
    count stats = 2%nat /\
    Spec.least (min stats) [Str.parseFloat "25"; Str.parseFloat "30"].
Proof.
  run_analysis Examples.scenario q ql md E.
  assert (Hcol : In "age" ["age"]) by (left; reflexivity).
  destruct (proj2 (proj1 C4_numeric_statistics Examples.scenario "age" _ _ _ E Hcol)
              ltac:(discriminate))
    as (stats & H1 & H2 & _ & _ & H5 & _).
  eexists _, _, _, stats. split; [reflexivity|]. split; [exact Hcol|].
  split; [exact H1|]. split; [exact H2|exact H5].
Defined.

(** C10. For every non-empty dataset, every column listed in
    metadata.numericColumns has an entry in quantitative: a Numeric column
    has a sampled value that passes the numeric test, the sample window is
    part of the dataset, and a value that passes the test is parsed by the
    engine, so the engine's list of values is never empty. *)
Theorem C10_numeric_columns_have_statistics :
  forall (data : list object) (column : string) q ql md,
    analyzeSurveyData data = Analysis q ql md ->
    In column (numericColumns md) ->
    column_values data column <> [] /\
    q !! column = Some (column_stats (column_values data column)).
Proof.
  intros data column q ql md H Hcol.
  apply analyze_inv in H as (_ & -> & _ & ->). cbn [numericColumns] in Hcol.
  assert (Hne : column_values data column <> []).
  { apply numeric_column_has_value.
    rewrite classify_filter in Hcol. now apply filter_In in Hcol. }
  split; [exact Hne|].
  rewrite quantitative_lookup. apply includes_In in Hcol. rewrite Hcol.
  destruct (column_values data column); [contradiction|reflexivity].
Qed.

Lemma C10_numeric_columns_have_statistics_witness :
  exists q ql md,
    analyzeSurveyData Examples.scenario = Analysis q ql md /\
    In "age" (numericColumns md) /\
    is_Some (q !! "age").
Proof.
  run_analysis Examples.scenario q ql md E.
  assert (Hcol : In "age" ["age"]) by (left; reflexivity).
  eexists _, _, _. split; [reflexivity|]. split; [exact Hcol|].
  eexists.
  exact (proj2 (C10_numeric_columns_have_statistics Examples.scenario "age" _ _ _
                  E Hcol)).
Defined.



(** ** The qualitative sampler *)

Section Sampler.

Import Str.

Lemma all_whitespace_trim_start (l : list ascii) :
  all_whitespace (trim_start l) = all_whitespace l.
Proof.
  induction l as [|c l IH]; [reflexivity|]. cbn.
  destruct (is_whitespace c) eqn:E; [exact IH|]. cbn. now rewrite E.
Qed.

Lemma all_whitespace_rev (l : list ascii) :
  all_whitespace (rev l) = all_whitespace l.
Proof.
  apply eq_true_iff_eq. unfold all_whitespace. rewrite !forallb_forall.
  split; intros H c Hc; apply H; [now apply in_rev in Hc|now apply in_rev].
Qed.

Lemma trim_end_blank (l : list ascii) : trim_end l = [] <-> all_whitespace l = true.
Proof.
  unfold trim_end. rewrite <- all_whitespace_rev, <- trim_start_blank.
  split; intros H.
  - apply (f_equal (@rev ascii)) in H. now rewrite rev_involutive in H.
  - now rewrite H.
Qed.

Lemma length_string_of_list (l : list ascii) :
  String.length (string_of_list_ascii l) = length l.
Proof. induction l as [|c l IH]; cbn; [reflexivity|now rewrite IH]. Qed.

(** The trimmed string is non-empty iff the string is not blank. *)
Lemma trim_length (s : string) :
  (0 <? String.length (trim s))%nat = negb (Spec.blank s).
Proof.
  unfold trim, Spec.blank. rewrite length_string_of_list.
  rewrite <- (all_whitespace_trim_start (list_ascii_of_string s)).
  destruct (trim_end (trim_start (list_ascii_of_string s))) as [|c l] eqn:E.
  - apply trim_end_blank in E. now rewrite E.
  - destruct (all_whitespace (trim_start (list_ascii_of_string s))) eqn:B;
      [|reflexivity].
    apply trim_end_blank in B. congruence.
Qed.

End Sampler.

(** The filter of line 148 keeps the truthy values whose string form is not
    blank. *)
Lemma keep_comment_truthy (v : value) :
  keep_comment v = ToBoolean v && Spec.non_empty v.
Proof.
  unfold keep_comment. rewrite trim_length.
  destruct v; cbn [ToBoolean Spec.non_empty andb]; reflexivity.
Qed.

(** On strings the filter is the specification's: present and not blank. *)
Lemma keep_comment_string (s : string) :
  keep_comment (VString s) = Spec.non_empty (VString s).
Proof.
  rewrite keep_comment_truthy. cbn [ToBoolean Spec.non_empty ToString].
  destruct (String.eqb_spec s "") as [->|]; reflexivity.
Qed.




(** C7 fails on the code for the number 0 (and for the other falsy values
    NaN and false): its string form "0" is not blank, but the guard
    [comment &&] of line 148 drops it.  In a text column that ends with the
    number 0 the value is missing from the working set. *)
Theorem C7_zero_is_dropped :
  Spec.non_empty (VNumber (of_Z 0)) = true /\
  keep_comment (VNumber (of_Z 0)) = false /\
  exists q ql md,
    analyzeSurveyData Examples.zero_comment = Analysis q ql md /\
    textColumns md = ["note"] /\
    ql !! "note"
    = Some {| totalEntries := 3;
              nonEmptyEntries := 2;
              sampleComments := [VString "n/a"; VString "none"] |}.
Proof.
  split; [reflexivity|]. split; [reflexivity|].
  eexists _, _, _. split; [vm_compute; reflexivity|]. split; reflexivity.
Qed.

(** ** The sign of a difference *)

Section Subtraction.

Lemma digits2_bounds (p : positive) :
  2 ^ (Z.pos (digits2_pos p) - 1) <= Z.pos p < 2 ^ Z.pos (digits2_pos p).
Proof.
  induction p as [p IH|p IH|]; cbn [digits2_pos]; [| |cbn; lia].
  - rewrite Pos2Z.inj_succ.
    replace (Z.succ (Z.pos (digits2_pos p)) - 1) with (Z.succ (Z.pos (digits2_pos p) - 1))
      by lia.
    rewrite !Z.pow_succ_r by lia. lia.
  - rewrite Pos2Z.inj_succ.
    replace (Z.succ (Z.pos (digits2_pos p)) - 1) with (Z.succ (Z.pos (digits2_pos p) - 1))
      by lia.
    rewrite !Z.pow_succ_r by lia. lia.
Qed.

Lemma shr_1_m (mrs : shr_record) :
  0 <= shr_m mrs -> shr_m (shr_1 mrs) = shr_m mrs / 2.
Proof.
  destruct mrs as [m r s]. cbn [shr_m]. intros H.
  destruct m as [|[p|p|]|p]; cbn [shr_1 shr_m]; try reflexivity; try lia.
  - rewrite Pos2Z.inj_xI. apply (Z.div_unique_pos _ _ _ 1); lia.
  - rewrite Pos2Z.inj_xO. apply (Z.div_unique_pos _ _ _ 0); lia.
Qed.

Lemma iter_shr_1_nonneg (n : positive) (mrs : shr_record) :
  0 <= shr_m mrs -> 0 <= shr_m (SpecFloat.iter_pos shr_1 n mrs).
Proof. apply (iter_pos_invariant (fun r => 0 <= shr_m r) shr_1 shr_1_nonneg). Qed.

Lemma iter_shr_1_m (n : positive) (mrs : shr_record) :
  0 <= shr_m mrs ->
  shr_m (SpecFloat.iter_pos shr_1 n mrs) = shr_m mrs / 2 ^ Z.pos n.
Proof.
  revert mrs. induction n as [n IH|n IH|]; intros mrs H; cbn [SpecFloat.iter_pos].
  - assert (P : 0 < 2 ^ Z.pos n) by (apply Z.pow_pos_nonneg; lia).
    assert (E : 2 ^ Z.pos n~1 = 2 * 2 ^ Z.pos n * 2 ^ Z.pos n).
    { rewrite Pos2Z.inj_xI.
      replace (2 * Z.pos n + 1) with (1 + Z.pos n + Z.pos n) by lia.
      rewrite !Z.pow_add_r by lia. lia. }
    rewrite IH by auto using shr_1_nonneg, iter_shr_1_nonneg.
    rewrite IH by auto using shr_1_nonneg.
    rewrite shr_1_m by assumption.
    rewrite E, !Z.div_div by lia. f_equal. lia.
  - assert (P : 0 < 2 ^ Z.pos n) by (apply Z.pow_pos_nonneg; lia).
    assert (E : 2 ^ Z.pos n~0 = 2 ^ Z.pos n * 2 ^ Z.pos n).
    { replace (Z.pos n~0) with (Z.pos n + Z.pos n) by lia.
      now rewrite Z.pow_add_r by lia. }
    rewrite IH by auto using iter_shr_1_nonneg.
    rewrite IH by assumption.
    rewrite E, Z.div_div by lia. reflexivity.
  - rewrite shr_1_m by assumption. reflexivity.
Qed.

(** Above the least exponent a right shift to the format's exponent keeps
    a positive mantissa positive. *)
Lemma shr_fexp_positive (m e : Z) (l : location) :
  0 < m -> emin prec emax <= e ->
  0 < shr_m (fst (shr_fexp prec emax m e l))
  /\ emin prec emax <= snd (shr_fexp prec emax m e l).
Proof.
  intros Hm He. unfold shr_fexp, shr.
  destruct m as [|p|p]; try lia. cbn [Zdigits2].
  pose proof (digits2_bounds p) as [Hlo _].
  set (d := Z.pos (digits2_pos p)) in *.
  unfold fexp. destruct (Z.max (d + e - prec) (emin prec emax) - e) as [|k|k] eqn:K;
    cbn [fst snd]; rewrite ?shr_record_of_loc_m; try (split; lia).
  rewrite iter_shr_1_m by (rewrite shr_record_of_loc_m; lia).
  rewrite shr_record_of_loc_m.
  assert (Hk : Z.pos k = d - prec) by (unfold prec in *; lia).
  split; [|lia].
  apply Z.div_str_pos. split; [apply Z.pow_pos_nonneg; lia|].
  transitivity (2 ^ (d - 1)); [|exact Hlo].
  apply Z.pow_le_mono_r; unfold prec in *; lia.
Qed.

Lemma round_nearest_even_positive (m : Z) (l : location) :
  0 < m -> 0 < round_nearest_even m l.
Proof.
  intros H. destruct l as [|[]]; cbn; try assumption.
  - destruct (Z.even m); lia.
  - lia.
Qed.

Lemma binary_round_aux_nonzero (s : bool) (m e : Z) (l : location) :
  0 < m -> emin prec emax <= e ->
  is_zero (binary_round_aux prec emax s m e l) = false.
Proof.
  intros Hm He. unfold binary_round_aux.
  destruct (shr_fexp_positive m e l Hm He) as [H1 H1'].
  destruct (shr_fexp prec emax m e l) as [mrs' e']. cbn [fst snd] in H1, H1'.
  pose proof (round_nearest_even_positive _ (loc_of_shr_record mrs') H1) as H2.
  destruct (shr_fexp_positive _ e' loc_Exact H2 H1') as [H3 _].
  destruct (shr_fexp prec emax _ e' loc_Exact) as [mrs'' e'']. cbn [fst] in H3.
  destruct (shr_m mrs'') as [|q|q]; try lia.
  now destruct (e'' <=? _).
Qed.

Lemma fexp_ge_emin (z : Z) : emin prec emax <= fexp prec emax z.
Proof. unfold fexp. lia. Qed.

Lemma binary_round_nonzero (s : bool) (m : positive) (e : Z) :
  emin prec emax <= e ->
  is_zero (binary_round prec emax s m e) = false.
Proof.
  intros He. unfold binary_round, shl_align.
  set (f := fexp prec emax (Z.pos (digits2_pos m) + e)).
  pose proof (fexp_ge_emin (Z.pos (digits2_pos m) + e)) as F. fold f in F.
  destruct (f - e) as [|k|k] eqn:K; apply binary_round_aux_nonzero; lia.
Qed.

Lemma signed_positive (s : bool) (x : number) :
  signed s x -> is_positive x = negb s && negb (is_zero x).
Proof. destruct x as [[]|[]| |[] m e], s; cbn; try reflexivity; try discriminate; tauto. Qed.

(** Rounding an integer multiple of a power of two keeps its sign. *)
Lemma binary_normalize_positive (m e : Z) :
  emin prec emax <= e ->
  is_positive (binary_normalize prec emax m e false) = (0 <? m).
Proof.
  intros He. destruct m as [|p|p]; cbn [binary_normalize]; [reflexivity| |].
  - rewrite (signed_positive false) by apply binary_round_signed.
    now rewrite binary_round_nonzero.
  - now rewrite (signed_positive true) by apply binary_round_signed.
Qed.

Lemma iter_xO_value (m k : positive) :
  Z.pos (Pos.iter xO m k) = Z.pos m * 2 ^ Z.pos k.
Proof.
  induction k as [|k IH] using Pos.peano_ind.
  - cbn [Pos.iter]. lia.
  - rewrite Pos.iter_succ, Pos2Z.inj_xO, IH, Pos2Z.inj_succ, Z.pow_succ_r by lia. lia.
Qed.

Lemma shl_align_value (m : positive) (e e' : Z) :
  e' <= e -> Z.pos (fst (shl_align m e e')) = Z.pos m * 2 ^ (e - e').
Proof.
  intros H. unfold shl_align.
  destruct (e' - e) as [|k|k] eqn:K; cbn [fst]; try lia.
  - replace (e - e') with 0 by lia. lia.
  - replace (e - e') with (Z.pos k) by lia.
    apply iter_xO_value.
Qed.

Lemma bounded_digits (m : positive) (e : Z) :
  bounded prec emax m e = true ->
  emin prec emax <= e /\ Z.pos (digits2_pos m) <= prec
  /\ (emin prec emax < e -> Z.pos (digits2_pos m) = prec).
Proof.
  unfold bounded, canonical_mantissa, fexp.
  intros [H%Z.eqb_eq _]%andb_true_iff. lia.
Qed.

(** Canonical mantissas: the larger exponent is the larger magnitude. *)
Lemma canonical_magnitude (m1 m2 : positive) (e1 e2 : Z) :
  bounded prec emax m1 e1 = true -> bounded prec emax m2 e2 = true ->
  e1 < e2 -> Z.pos m1 < Z.pos m2 * 2 ^ (e2 - e1).
Proof.
  intros (E1 & D1 & _)%bounded_digits (_ & _ & D2)%bounded_digits H.
  specialize (D2 ltac:(lia)).
  pose proof (digits2_bounds m1) as [_ U1].
  pose proof (digits2_bounds m2) as [L2 _]. rewrite D2 in L2.
  assert (P : 2 ^ Z.pos (digits2_pos m1) <= 2 ^ prec) by (apply Z.pow_le_mono_r; lia).
  assert (Q : 2 ^ 1 <= 2 ^ (e2 - e1)) by (apply Z.pow_le_mono_r; lia).
  replace (2 ^ prec) with (2 ^ (prec - 1) * 2 ^ 1) in P
    by (rewrite <- Z.pow_add_r by (unfold prec; lia); f_equal; lia).
  assert (0 < 2 ^ (prec - 1)) by (apply Z.pow_pos_nonneg; unfold prec; lia).
  nia.
Qed.

(** The comparison function [a - b] is positive exactly when [a > b]. *)
Lemma sub_positive (x y : number) :
  valid x = true -> valid y = true ->
  is_nan x = false -> is_nan y = false ->
  is_positive (SortCompare sub x y) = ltb y x.
Proof.
  unfold valid, SortCompare, sub.
  destruct x as [sx|sx| |sx mx ex], y as [sy|sy| |sy my ey];
    intros Vx Vy Nx Ny; try discriminate;
    try (destruct sx, sy; reflexivity); try (destruct sx; reflexivity);
    try (destruct sy; reflexivity).
  cbn [valid_binary] in Vx, Vy. cbn [SFsub].
  rewrite binary_normalize_not_nan.
  pose proof (bounded_digits _ _ Vx) as (Ex & _).
  pose proof (bounded_digits _ _ Vy) as (Ey & _).
  rewrite binary_normalize_positive by lia.
  rewrite !shl_align_value by lia.
  unfold ltb, SFltb, SFcompare.
  assert (Px : 0 < 2 ^ (ex - Z.min ex ey)) by (apply Z.pow_pos_nonneg; lia).
  assert (Py : 0 < 2 ^ (ey - Z.min ex ey)) by (apply Z.pow_pos_nonneg; lia).
  destruct sx, sy; cbn [cond_Zopp].
  - (* both negative *)
    change (Pos.compare_cont Eq my mx) with (Pos.compare my mx).
    destruct (Z.compare_spec ey ex) as [E|E|E].
    + subst. rewrite Z.min_id, Z.sub_diag in *. cbn.
      destruct (Pos.compare_spec my mx) as [E'|E'|E']; cbn;
        [subst; apply Z.ltb_ge; lia|apply Z.ltb_ge; lia|apply Z.ltb_lt; lia].
    + pose proof (canonical_magnitude _ _ _ _ Vy Vx E).
      rewrite Z.min_r in * by lia. rewrite Z.sub_diag in *.
      apply Z.ltb_ge. lia.
    + pose proof (canonical_magnitude _ _ _ _ Vx Vy E).
      rewrite Z.min_l in * by lia. rewrite Z.sub_diag in *.
      apply Z.ltb_lt. lia.
  - apply Z.ltb_ge. lia.
  - apply Z.ltb_lt. lia.
  - (* both positive *)
    change (Pos.compare_cont Eq my mx) with (Pos.compare my mx).
    destruct (Z.compare_spec ey ex) as [E|E|E].
    + subst. rewrite Z.min_id, Z.sub_diag in *. cbn.
      destruct (Pos.compare_spec my mx) as [E'|E'|E']; cbn;
        [subst; apply Z.ltb_ge; lia|apply Z.ltb_lt; lia|apply Z.ltb_ge; lia].
    + pose proof (canonical_magnitude _ _ _ _ Vy Vx E).
      rewrite Z.min_r in * by lia. rewrite Z.sub_diag in *.
      apply Z.ltb_lt. lia.
    + pose proof (canonical_magnitude _ _ _ _ Vx Vy E).
      rewrite Z.min_l in * by lia. rewrite Z.sub_diag in *.
      apply Z.ltb_ge. lia.
Qed.

End Subtraction.

(** ** Rounded results are binary64 values *)

Section Validity.

Lemma Zdigits2_bounds (m : Z) :
  0 < m -> 2 ^ (Zdigits2 m - 1) <= m < 2 ^ Zdigits2 m.
Proof. destruct m as [|p|p]; try lia. intros _. apply digits2_bounds. Qed.

Lemma Zdigits2_positive (m : Z) : 0 < m -> 0 < Zdigits2 m.
Proof. destruct m; cbn; lia. Qed.

Lemma Zdigits2_unique (m d : Z) :
  0 < m -> 2 ^ (d - 1) <= m < 2 ^ d -> Zdigits2 m = d.
Proof.
  intros Hm [Hlo Hhi].
  pose proof (Zdigits2_bounds m Hm) as [Hlo' Hhi'].
  pose proof (Zdigits2_positive m Hm) as Hd'.
  assert (Hd : 0 < d).
  { destruct (Z.ltb_spec 0 d); [assumption|].
    assert (2 ^ d <= 2 ^ 0) by (apply Z.pow_le_mono_r; lia).
    change (2 ^ 0) with 1 in *. lia. }
  destruct (Z.lt_trichotomy (Zdigits2 m) d) as [H|[H|H]]; [|assumption|].
  - assert (2 ^ Zdigits2 m <= 2 ^ (d - 1)) by (apply Z.pow_le_mono_r; lia). lia.
  - assert (2 ^ d <= 2 ^ (Zdigits2 m - 1)) by (apply Z.pow_le_mono_r; lia). lia.
Qed.

Lemma Zdigits2_shiftr (m n : Z) :
  0 < m -> 0 <= n < Zdigits2 m -> Zdigits2 (m / 2 ^ n) = Zdigits2 m - n.
Proof.
  intros Hm Hn.
  pose proof (Zdigits2_bounds m Hm) as [Hlo Hhi].
  assert (P : 0 < 2 ^ n) by (apply Z.pow_pos_nonneg; lia).
  assert (E1 : 2 ^ (Zdigits2 m - 1) = 2 ^ (Zdigits2 m - n - 1) * 2 ^ n).
  { rewrite <- Z.pow_add_r by lia. f_equal. lia. }
  assert (E2 : 2 ^ Zdigits2 m = 2 ^ (Zdigits2 m - n) * 2 ^ n).
  { rewrite <- Z.pow_add_r by lia. f_equal. lia. }
  assert (Q : 0 < 2 ^ (Zdigits2 m - n - 1)) by (apply Z.pow_pos_nonneg; lia).
  apply Zdigits2_unique.
  - apply Z.div_str_pos. split; [assumption|]. nia.
  - split.
    + apply Z.div_le_lower_bound; [assumption|]. lia.
    + apply Z.div_lt_upper_bound; [assumption|]. lia.
Qed.

Lemma Zdigits2_shiftl (m n : Z) :
  0 < m -> 0 <= n -> Zdigits2 (m * 2 ^ n) = Zdigits2 m + n.
Proof.
  intros Hm Hn.
  pose proof (Zdigits2_bounds m Hm) as [Hlo Hhi].
  pose proof (Zdigits2_positive m Hm) as Hd.
  assert (P : 0 < 2 ^ n) by (apply Z.pow_pos_nonneg; lia).
  apply Zdigits2_unique; [nia|].
  replace (Zdigits2 m + n - 1) with (Zdigits2 m - 1 + n) by lia.
  rewrite !Z.pow_add_r by lia. nia.
Qed.

Lemma Zdigits2_mono (a b : Z) : 0 < a <= b -> Zdigits2 a <= Zdigits2 b.
Proof.
  intros [Ha Hb].
  pose proof (Zdigits2_bounds a Ha) as [La _].
  pose proof (Zdigits2_bounds b ltac:(lia)) as [_ Ub].
  destruct (Z.leb_spec (Zdigits2 a) (Zdigits2 b)) as [|H]; [assumption|].
  assert (2 ^ Zdigits2 b <= 2 ^ (Zdigits2 a - 1)).
  { apply Z.pow_le_mono_r; [lia|]. lia. }
  lia.
Qed.

Lemma shr_value (mrs : shr_record) (e n : Z) :
  0 <= shr_m mrs -> 0 <= n ->
  shr_m (fst (shr mrs e n)) = shr_m mrs / 2 ^ n /\ snd (shr mrs e n) = e + n.
Proof.
  intros Hm Hn. destruct n as [|k|k]; cbn [shr fst snd]; try lia.
  - change (2 ^ 0) with 1. rewrite Z.div_1_r. lia.
  - now rewrite iter_shr_1_m.
Qed.

Lemma shr_fexp_aligned (m e : Z) (l : location) :
  0 <= m -> e <= fexp prec emax (Zdigits2 m + e) ->
  Num.aligned (shr_m (fst (shr_fexp prec emax m e l))) (snd (shr_fexp prec emax m e l)).
Proof.
  intros Hm He. unfold shr_fexp.
  set (n := fexp prec emax (Zdigits2 m + e) - e).
  destruct (shr_value (shr_record_of_loc m l) e n) as [-> ->];
    [rewrite shr_record_of_loc_m; lia|lia|].
  rewrite shr_record_of_loc_m.
  assert (P : 0 < 2 ^ n) by (apply Z.pow_pos_nonneg; lia).
  destruct (Z.eq_dec m 0) as [->|Hne].
  - left. rewrite Z.div_0_l by lia. split; [reflexivity|].
    unfold n, fexp in *. cbn [Zdigits2] in *. unfold prec in *. lia.
  - assert (Hpos : 0 < m) by lia.
    pose proof (Zdigits2_bounds m Hpos) as [Hlo Hhi].
    pose proof (Zdigits2_positive m Hpos) as Hd.
    destruct (Z.ltb_spec n (Zdigits2 m)) as [Hn|Hn].
    + right. split.
      * apply Z.div_str_pos. split; [assumption|].
        transitivity (2 ^ (Zdigits2 m - 1)); [|assumption].
        apply Z.pow_le_mono_r; lia.
      * rewrite Zdigits2_shiftr by lia.
        replace (Zdigits2 m - n + (e + n)) with (Zdigits2 m + e) by lia.
        unfold n. lia.
    + left. split.
      * apply Z.div_small. split; [lia|].
        apply Z.lt_le_trans with (2 ^ Zdigits2 m); [assumption|].
        apply Z.pow_le_mono_r; lia.
      * unfold n, fexp in *. unfold prec in *. lia.
Qed.

Lemma round_nearest_even_cases (m : Z) (l : location) :
  round_nearest_even m l = m \/ round_nearest_even m l = m + 1.
Proof. destruct l as [|[]]; cbn; auto. destruct (Z.even m); auto. Qed.

Lemma Zdigits2_succ (m : Z) :
  0 < m ->
  Zdigits2 (m + 1) = Zdigits2 m
  \/ (m + 1 = 2 ^ Zdigits2 m /\ Zdigits2 (m + 1) = Zdigits2 m + 1).
Proof.
  intros Hm. pose proof (Zdigits2_bounds m Hm) as [Hlo Hhi].
  pose proof (Zdigits2_positive m Hm) as Hd.
  destruct (Z.eq_dec (m + 1) (2 ^ Zdigits2 m)) as [E|E].
  - right. split; [assumption|].
    apply Zdigits2_unique; [lia|].
    replace (Zdigits2 m + 1 - 1) with (Zdigits2 m) by lia.
    rewrite Z.pow_add_r by lia. lia.
  - left. apply Zdigits2_unique; lia.
Qed.

(** After rounding, one more shift to the format's exponent gives a
    canonical mantissa, or zero. *)
Lemma round_aligned (m e : Z) (l : location) :
  Num.aligned m e ->
  let r := shr_fexp prec emax (round_nearest_even m l) e loc_Exact in
  shr_m (fst r) = 0
  \/ (0 < shr_m (fst r) /\ fexp prec emax (Zdigits2 (shr_m (fst r)) + snd r) = snd r).
Proof.
  intros [[-> ->]|[Hm Hc]] r; unfold r, shr_fexp, shr.
  - destruct (round_nearest_even_cases 0 l) as [->| ->];
      [left; vm_compute; reflexivity|right; vm_compute; split; reflexivity].
  - pose proof (Zdigits2_positive m Hm) as Hd.
    destruct (round_nearest_even_cases m l) as [->| ->].
    + rewrite Hc, Z.sub_diag. cbn [fst snd]. rewrite shr_record_of_loc_m. auto.
    + destruct (Zdigits2_succ m Hm) as [D|[E D]].
      * rewrite D, Hc, Z.sub_diag. cbn [fst snd]. rewrite shr_record_of_loc_m.
        right. split; [lia|]. now rewrite D.
      * rewrite D. unfold fexp in *.
        destruct (Z.max (Zdigits2 m + 1 + e - prec) (emin prec emax) - e)
          as [|k|k] eqn:K; cbn [fst snd]; rewrite ?shr_record_of_loc_m.
        -- right. split; [lia|]. rewrite D. lia.
        -- assert (Hk : Z.pos k = 1) by lia. injection Hk as ->.
           cbn [SpecFloat.iter_pos].
           rewrite shr_1_m by (rewrite shr_record_of_loc_m; lia).
           rewrite shr_record_of_loc_m, E.
           replace (2 ^ Zdigits2 m) with (2 ^ (Zdigits2 m - 1) * 2)
             by (replace (Zdigits2 m) with (Zdigits2 m - 1 + 1) at 2 by lia;
                 rewrite Z.pow_add_r by lia; reflexivity).
           rewrite Z.div_mul by lia.
           assert (P : 0 < 2 ^ (Zdigits2 m - 1)) by (apply Z.pow_pos_nonneg; lia).
           right. split; [assumption|].
           replace (Zdigits2 (2 ^ (Zdigits2 m - 1))) with (Zdigits2 m);
             [lia|].
           symmetry. apply Zdigits2_unique; [assumption|]. split; [lia|].
           apply Z.pow_lt_mono_r; lia.
        -- lia.
Qed.

Lemma binary_round_aux_valid (s : bool) (m e : Z) (l : location) :
  0 <= m -> e <= fexp prec emax (Zdigits2 m + e) ->
  valid (binary_round_aux prec emax s m e l) = true.
Proof.
  intros Hm He. unfold binary_round_aux.
  pose proof (shr_fexp_aligned m e l Hm He) as A.
  destruct (shr_fexp prec emax m e l) as [mrs' e']. cbn [fst snd] in A.
  pose proof (round_aligned _ _ (loc_of_shr_record mrs') A) as R. cbn zeta in R.
  destruct (shr_fexp prec emax _ e' loc_Exact) as [mrs'' e'']. cbn [fst snd] in R.
  destruct (shr_m mrs'') as [|q|q]; try reflexivity.
  destruct R as [R|[_ R]]; [discriminate|].
  destruct (Z.leb_spec e'' (emax - prec)) as [L|L]; [|reflexivity].
  unfold valid. cbn [valid_binary]. unfold bounded, canonical_mantissa.
  cbn [Zdigits2] in R. rewrite R, Z.eqb_refl. cbn [andb]. now apply Z.leb_le.
Qed.

Lemma binary_round_valid (s : bool) (m : positive) (e : Z) :
  valid (binary_round prec emax s m e) = true.
Proof.
  unfold binary_round.
  set (f := fexp prec emax (Z.pos (digits2_pos m) + e)).
  pose proof (shl_align_value m e f) as V.
  unfold shl_align in *.
  destruct (f - e) as [|k|k] eqn:K; cbn [fst] in V.
  - apply binary_round_aux_valid; [lia|]. cbn [Zdigits2]. fold f. lia.
  - apply binary_round_aux_valid; [lia|]. cbn [Zdigits2]. fold f. lia.
  - apply binary_round_aux_valid; [lia|].
    rewrite V by lia.
    rewrite Zdigits2_shiftl by lia. cbn [Zdigits2].
    replace (Z.pos (digits2_pos m) + (e - f) + f) with (Z.pos (digits2_pos m) + e) by lia.
    fold f. lia.
Qed.

Lemma binary_normalize_valid (m e : Z) (szero : bool) :
  valid (binary_normalize prec emax m e szero) = true.
Proof. destruct m; cbn [binary_normalize]; [reflexivity| |]; apply binary_round_valid. Qed.

Lemma fexp_mono (a b : Z) : a <= b -> fexp prec emax a <= fexp prec emax b.
Proof. unfold fexp. lia. Qed.

(** The quotient of the division core has enough digits to be rounded. *)
Lemma SFdiv_core_binary_digits (m1 e1 m2 e2 : Z) :
  0 < m1 -> 0 < m2 ->
  let '(q, e', _) := SFdiv_core_binary prec emax m1 e1 m2 e2 in
  0 <= q /\ e' <= fexp prec emax (Zdigits2 q + e').
Proof.
  intros H1 H2. unfold SFdiv_core_binary.
  set (d1 := Zdigits2 m1). set (d2 := Zdigits2 m2).
  set (e' := Z.min (fexp prec emax (d1 + e1 - (d2 + e2))) (e1 - e2)).
  set (s := e1 - e2 - e').
  assert (Hs : 0 <= s) by (unfold s, e'; lia).
  set (m' := match s with 0 => m1 | Z.pos _ => Z.shiftl m1 s | Z.neg _ => 0 end).
  assert (Em : m' = m1 * 2 ^ s).
  { unfold m'. destruct s as [|k|k] eqn:S; try lia.
    now rewrite Z.shiftl_mul_pow2 by lia. }
  pose proof (Z_div_mod m' m2 ltac:(lia)) as D.
  destruct (Z.div_eucl m' m2) as [q r].
  pose proof (Zdigits2_bounds m1 H1) as [L1 _]. fold d1 in L1.
  pose proof (Zdigits2_bounds m2 H2) as [_ U2]. fold d2 in U2.
  pose proof (Zdigits2_positive m1 H1) as P1. fold d1 in P1.
  pose proof (Zdigits2_positive m2 H2) as P2. fold d2 in P2.
  assert (Ps : 0 < 2 ^ s) by (apply Z.pow_pos_nonneg; lia).
  assert (Hq : 0 <= q) by nia.
  split; [assumption|].
  assert (Hd : d1 + s - d2 <= Zdigits2 q \/ (q = 0 /\ d1 + s - d2 <= 0)).
  { destruct (Z.leb_spec (d1 + s - d2) 0) as [Z0|Z0].
    - destruct (Z.eq_dec q 0); [tauto|]. left.
      pose proof (Zdigits2_positive q ltac:(lia)). lia.
    - left.
      assert (B : 2 ^ (d1 + s - d2 - 1) <= q).
      { assert (X : 2 ^ (d1 - 1) * 2 ^ s = 2 ^ (d1 + s - d2 - 1) * 2 ^ d2).
        { rewrite <- !Z.pow_add_r by lia. f_equal. lia. }
        assert (Y : 0 < 2 ^ (d1 + s - d2 - 1)) by (apply Z.pow_pos_nonneg; lia).
        destruct (Z.leb_spec (2 ^ (d1 + s - d2 - 1)) q); [assumption|]. nia. }
      assert (Y : 0 < 2 ^ (d1 + s - d2 - 1)) by (apply Z.pow_pos_nonneg; lia).
      pose proof (Zdigits2_bounds q ltac:(lia)) as [_ Uq].
      destruct (Z.leb_spec (d1 + s - d2) (Zdigits2 q)); [assumption|].
      assert (2 ^ Zdigits2 q <= 2 ^ (d1 + s - d2 - 1)).
      { apply Z.pow_le_mono_r; [lia|]. lia. }
      lia. }
  destruct Hd as [Hd|[-> Hd]].
  - transitivity (fexp prec emax (d1 + e1 - (d2 + e2))); [unfold e'; lia|].
    apply fexp_mono. unfold s in Hd. lia.
  - cbn [Zdigits2]. unfold s, e', fexp in *. unfold prec in *. lia.
Qed.

Lemma of_decimal_valid (neg : bool) (m e : Z) : valid (of_decimal neg m e) = true.
Proof.
  unfold of_decimal. destruct m as [|p|p]; try reflexivity.
  destruct (Z.leb_spec 0 e) as [He|He]; [apply binary_normalize_valid|].
  pose proof (SFdiv_core_binary_digits (Z.pos p) 0 (10 ^ (- e)) 0 ltac:(lia)
                ltac:(apply Z.pow_pos_nonneg; lia)) as Hq.
  destruct (SFdiv_core_binary _ _ _ _ _ _) as [[q e'] l].
  now apply binary_round_aux_valid.
Qed.

(** Every result of [parseFloat] is a binary64 value. *)
Lemma parseFloat_valid (s : string) : valid (Str.parseFloat s) = true.
Proof.
  unfold Str.parseFloat, Str.parse_StrDecimalLiteral.
  destruct (Str.parse_sign _) as [neg l].
  destruct (Str.parse_StrUnsignedDecimalLiteral l) as [[[[m e]|] r]|];
    try reflexivity.
  apply of_decimal_valid.
Qed.

End Validity.

(** ** Sorting and the median *)

Section Sorting.

Variable comparefn : number -> number -> number.

Lemma sort_insert_Permutation (x : number) (l : list number) :
  Permutation (sort_insert comparefn x l) (x :: l).
Proof.
  induction l as [|y l IH]; cbn; [reflexivity|].
  destruct (is_positive _); [|reflexivity].
  rewrite IH. apply perm_swap.
Qed.

(** The sorted array holds the same elements. *)
Lemma sort_Permutation (l : list number) : Permutation (sort comparefn l) l.
Proof.
  induction l as [|x l IH]; cbn; [reflexivity|].
  rewrite sort_insert_Permutation. now constructor.
Qed.

Lemma sort_length (l : list number) : length (sort comparefn l) = length l.
Proof. apply Permutation_length, sort_Permutation. Qed.

End Sorting.

Lemma sort_insert_ascending (x : number) (l : list number) :
  valid x = true -> is_nan x = false ->
  Spec.all_valid l -> Spec.no_nan l ->
  Spec.ascending l -> Spec.ascending (sort_insert sub x l).
Proof.
  intros Vx Nx. unfold Spec.ascending.
  induction l as [|y l IH]; intros Vl Nl Hs; cbn [sort_insert].
  - repeat constructor.
  - apply Forall_cons_iff in Vl as [Vy Vl]. apply Forall_cons_iff in Nl as [Ny Nl].
    apply Sorted_inv in Hs as [Hs Hd].
    rewrite sub_positive by assumption.
    destruct (ltb y x) eqn:L.
    + constructor; [now apply IH|].
      destruct l as [|z l]; cbn [sort_insert].
      * constructor. now apply ltb_leb.
      * destruct (is_positive _); constructor; [now inversion Hd|now apply ltb_leb].
    + constructor; [now constructor|]. constructor. now apply not_ltb_leb.
Qed.

(** With the comparison function [(a, b) => a - b] the sort is ascending. *)
Lemma sort_ascending (l : list number) :
  Spec.all_valid l -> Spec.no_nan l -> Spec.ascending (sort sub l).
Proof.
  induction l as [|x l IH]; intros Vl Nl; cbn [sort]; [constructor|].
  apply Forall_cons_iff in Vl as [Vx Vl]. apply Forall_cons_iff in Nl as [Nx Nl].
  apply sort_insert_ascending; try assumption.
  - unfold Spec.all_valid. now rewrite sort_Permutation.
  - unfold Spec.no_nan. now rewrite sort_Permutation.
  - now apply IH.
Qed.

Lemma even_mod2 (n : nat) : (n mod 2 =? 0)%nat = Nat.even n.
Proof.
  destruct (Nat.even n) eqn:E.
  - apply Nat.even_spec in E as [k ->].
    now rewrite Nat.mul_comm, Nat.Div0.mod_mul.
  - assert (O : Nat.odd n = true) by (unfold Nat.odd; now rewrite E).
    apply Nat.odd_spec in O as [k ->].
    now rewrite Nat.add_comm, Nat.mul_comm, Nat.Div0.mod_add.
Qed.

(** The values the engine works on: parsed, not NaN, binary64. *)
Lemma parsed_values_no_nan (inputs : list value) :
  Spec.no_nan (Spec.parsed_values inputs).
Proof.
  apply List.Forall_forall. intros x [_ H]%filter_In. now apply negb_true_iff in H.
Qed.

Lemma parsed_values_valid (inputs : list value) :
  Spec.all_valid (Spec.parsed_values inputs).
Proof.
  apply List.Forall_forall. intros x [H _]%filter_In.
  apply in_map_iff in H as (v & <- & _). apply parseFloat_valid.
Qed.

Lemma column_values_parsed (data : list object) (column : string) :
  column_values data column = Spec.parsed_values (Spec.column column data).
Proof.
  unfold column_values, Spec.parsed_values, Spec.column. now rewrite map_map.
Qed.

Lemma median_of_middle (values : list number) :
  median_of values = Spec.middle (sort (fun a b => sub a b) values).
Proof. unfold median_of, Spec.middle. now rewrite even_mod2. Qed.

(** C5. For every non-empty list of parsed values the median is obtained
    by sorting the values in ascending order and taking the middle element
    when the count is odd, or the mean of the elements at the 0-based
    indices count/2 - 1 and count/2 when it is even; median([1,2,3]) = 2 and
    median([1,2,3,4]) = 2.5; the median that an entry of quantitative
    reports is this median of the column's parsed values. *)
Theorem C5_median :
  (forall inputs : list value,
      let values := Spec.parsed_values inputs in
      values <> [] ->
      let sortedValues := sort (fun a b => sub a b) values in
      let n := length values in
      Permutation sortedValues values /\
      Spec.ascending sortedValues /\
      median_of values = Spec.middle sortedValues /\
      (Nat.Odd n -> median_of values = nth (n / 2) sortedValues NaN) /\
      (Nat.Even n ->
       median_of values
       = div (add (nth (n / 2 - 1) sortedValues NaN) (nth (n / 2) sortedValues NaN))
             (of_Z 2))) /\
  median_of [of_Z 1; of_Z 2; of_Z 3] = of_Z 2 /\
  median_of [of_Z 1; of_Z 2; of_Z 3; of_Z 4] = Str.parseFloat "2.5" /\
  (forall (data : list object) (column : string) q ql md,
      analyzeSurveyData data = Analysis q ql md ->
      In column (numericColumns md) ->
      exists stats,
        q !! column = Some stats /\
        median stats = median_of (Spec.parsed_values (Spec.column column data))).
Proof.
  split; [|split; [reflexivity|split; [reflexivity|]]].
  - intros inputs values Hne sortedValues n.
    pose proof (median_of_middle values) as M. fold sortedValues in M.
    assert (L : length sortedValues = n) by apply sort_length.
    split; [apply sort_Permutation|].
    split; [apply sort_ascending;
            [apply parsed_values_valid|apply parsed_values_no_nan]|].
    split; [exact M|]. rewrite M. unfold Spec.middle. rewrite L.
    split.
    + intros O. apply Nat.odd_spec in O. unfold Nat.odd in O.
      apply negb_true_iff in O. now rewrite O.
    + intros E. apply Nat.even_spec in E. now rewrite E.
  - intros data column q ql md H Hcol.
    apply analyze_inv in H as (_ & -> & _ & ->). cbn [numericColumns] in Hcol.
    assert (Hne : column_values data column <> []).
    { apply numeric_column_has_value.
      rewrite classify_filter in Hcol. now apply filter_In in Hcol. }
    rewrite quantitative_lookup. apply includes_In in Hcol. rewrite Hcol.
    rewrite <- column_values_parsed.
    destruct (column_values data column) eqn:E; [contradiction|].
    eexists. split; reflexivity.
Qed.

Lemma C5_median_witness :
  let inputs := [VString "4"; VString "1"; VString "3"; VString "2"] in
  Spec.parsed_values inputs <> [] /\
  sort (fun a b => sub a b) (Spec.parsed_values inputs)
  = [of_Z 1; of_Z 2; of_Z 3; of_Z 4] /\
  Spec.ascending (sort (fun a b => sub a b) (Spec.parsed_values inputs)) /\
  median_of (Spec.parsed_values inputs) = Str.parseFloat "2.5".
Proof.
  cbn zeta.
  assert (H1 : Spec.parsed_values [VString "4"; VString "1"; VString "3"; VString "2"]
               <> []) by (vm_compute; discriminate).
  destruct (proj1 C5_median _ H1) as (_ & A & M & _).
  split; [exact H1|]. split; [vm_compute; reflexivity|].
  split; [exact A|]. rewrite M. vm_compute. reflexivity.
Defined.
